(** * Vermouth: middleware chain, scoped middleware, handler adapters,
      instrumented response writer and graceful observer.

    A shallow embedding of [vermouth.go] and [serve.go].  Go functions with
    side effects become state-passing functions in a small state-and-panic
    monad; Go interface values become inductive tagged unions; nil pointers
    and nil interfaces become [None]. *)

From Stdlib Require Import List String Ascii Bool Arith ZArith Lia.
From Stdlib Require Import FunctionalExtensionality.
Import ListNotations.
Local Open Scope string_scope.
Local Open Scope list_scope.

Set Implicit Arguments.
Set Warnings "-register-all".

(* ================================================================= *)
(** * Part I.  Definitions *)
(* ================================================================= *)

(** ** Effects: state passing with Go panics *)

(** The value carried by a Go [panic]. *)
Inductive panic_value : Type :=
| NilDereference                 (* runtime error: nil pointer dereference *)
| PanicString (msg : string).    (* panic(fmt.Sprintf(...)) *)

(** Outcome of running a Go statement sequence from a state. *)
Inductive result (St A : Type) : Type :=
| Done (a : A) (s : St)
| Panic (p : panic_value).
Arguments Done {St A} a s.
Arguments Panic {St A} p.

(** A Go computation over the mutable world [St]. *)
Definition M (St A : Type) : Type := St -> result St A.

Definition ret {St A} (a : A) : M St A := fun s => Done a s.

Definition bind {St A B} (m : M St A) (k : A -> M St B) : M St B :=
  fun s => match m s with
           | Done a s' => k a s'
           | Panic p => Panic p
           end.

Definition throw {St A} (p : panic_value) : M St A := fun _ => Panic p.

Declare Scope go_scope.
Delimit Scope go_scope with go.
Notation "m ;; k" := (bind m (fun _ => k))
  (at level 61, right associativity) : go_scope.
Notation "x <- m ;; k" := (bind m (fun x => k))
  (at level 61, m at next level, right associativity) : go_scope.
Local Open Scope go_scope.

(** Run a list of statements one after the other. *)
Fixpoint seqM {St} (ms : list (M St unit)) : M St unit :=
  match ms with
  | [] => ret tt
  | m :: ms' => m ;; seqM ms'
  end.

(** ** Requests *)

(** [url.URL], reduced to the field the package reads. *)
Record URL_t : Type := mkURL { Path : string }.

(** [http.Request], reduced to the field the package reads: [URL] is a
    [*url.URL], [None] when nil.  A nil [*http.Request] is [None] at the
    use sites. *)
Record Request : Type := mkRequest { URL : option URL_t }.

(** ** Handlers and the middleware chain (vermouth.go) *)

Section Chain.
Context {Ctx RW St : Type}.

(** [type ContextHandlerFunc func(context.Context, http.ResponseWriter,
    *http.Request)].  A nil function value behaves as the function that
    panics when it is called. *)
Definition ContextHandlerFunc : Type :=
  Ctx -> RW -> option Request -> M St unit.

(** [type Handler interface { ServeHTTP(ctx, w, r, next) }], and
    [HandlerFunc], whose [ServeHTTP] is [h(ctx, w, r, next)]. *)
Definition Handler : Type :=
  Ctx -> RW -> option Request -> ContextHandlerFunc -> M St unit.

Definition HandlerFunc (h : Handler) : Handler :=
  fun ctx w r next => h ctx w r next.

(** [type middleware struct { handler Handler; next *middleware }].
    A nil interface and a nil pointer are [None]. *)
Inductive middleware : Type :=
| Middleware (handler : option Handler) (next : option middleware).

(** The zero value [middleware{}]. *)
Definition zeroMiddleware : middleware := Middleware None None.

(** [func (m middleware) ServeHTTP(ctx, w, r)]:
    [m.handler.ServeHTTP(ctx, w, r, m.next.ServeHTTP)].
    The method value [m.next.ServeHTTP] copies [*m.next], so a nil [m.next]
    panics; calling a method of the nil interface [m.handler] panics. *)
Fixpoint ServeHTTP (m : middleware) : ContextHandlerFunc :=
  fun ctx w r =>
    match m with
    | Middleware h nx =>
        match nx with
        | None => throw NilDereference
        | Some n =>
            match h with
            | None => throw NilDereference
            | Some handler => handler ctx w r (ServeHTTP n)
            end
        end
    end.

(** [func voidMiddleware() middleware]. *)
Definition voidMiddleware : middleware :=
  Middleware (Some (HandlerFunc (fun ctx w r next => ret tt)))
             (Some zeroMiddleware).

(** [func build(handlers []Handler) middleware]. *)
Fixpoint build (handlers : list Handler) : middleware :=
  match handlers with
  | [] => voidMiddleware
  | h0 :: tl =>
      let next := match tl with
                  | _ :: _ => build tl
                  | [] => voidMiddleware
                  end in
      Middleware (Some h0) (Some next)
  end.

(** [func wrapHandler(handler ContextHandler) Handler]; the
    [ContextHandler] is given by its [ServeHTTP] method. *)
Definition wrapHandler (handler : ContextHandlerFunc) : Handler :=
  HandlerFunc (fun ctx w r next =>
                 handler ctx w r ;; next ctx w r).

(** [strings.HasPrefix(s, prefix)]. *)
Definition HasPrefix (s prefix : string) : bool := String.prefix prefix s.

(** [pattern[len(pattern)-1]] for a non-empty pattern. *)
Fixpoint last_byte (s : string) : option ascii :=
  match s with
  | EmptyString => None
  | String c EmptyString => Some c
  | String _ s' => last_byte s'
  end.

Definition isWildcard (pattern : string) : bool :=
  (pattern =? "")%string || (pattern =? "/")%string.

(** The first three lines of [makeRoutingHandler]: the pattern the closure
    captures. *)
Definition normalizePattern (pattern : string) : string :=
  if negb (isWildcard pattern)
     && negb (match last_byte pattern with
              | Some c => Ascii.eqb c "/"%char
              | None => false
              end)
  then pattern ++ "/"
  else pattern.

(** [func makeRoutingHandler(pattern string, handler Handler) Handler].
    [r.URL.Path] dereferences [r.URL]: a nil URL panics there. *)
Definition makeRoutingHandler (pattern : string) (handler : Handler)
  : Handler :=
  let isW := isWildcard pattern in
  let pattern := normalizePattern pattern in
  HandlerFunc (fun ctx w r next =>
    match r with
    | None => handler ctx w r next
    | Some req =>
        if isW then handler ctx w r next
        else match URL req with
             | None => throw NilDereference
             | Some u =>
                 if HasPrefix (Path u ++ "/") pattern
                 then handler ctx w r next
                 else next ctx w r
             end
    end).

(** The interceptor runs [before], calls its bound [next] once on the
    arguments it received, then runs [after]. *)
Definition calls_next_once ctx w r (h : Handler)
           (ba : M St unit * M St unit) : Prop :=
  forall next : ContextHandlerFunc,
    h ctx w r next = (fst ba ;; next ctx w r ;; snd ba).

(** The interceptor's behaviour does not depend on its bound [next]. *)
Definition ignores_next (h : Handler) : Prop :=
  forall ctx w r (n1 n2 : ContextHandlerFunc),
    h ctx w r n1 = h ctx w r n2.

(** The interceptor calls [next], if at all, with the request it was given:
    its behaviour depends on [next] only at that request. *)
Definition forwards_request (h : Handler) : Prop :=
  forall ctx w r (n1 n2 : ContextHandlerFunc),
    (forall ctx' w', n1 ctx' w' r = n2 ctx' w' r) ->
    h ctx w r n1 = h ctx w r n2.


End Chain.

Arguments ContextHandlerFunc : clear implicits.
Arguments Handler : clear implicits.
Arguments middleware : clear implicits.

(** ** Nesting and invocation points *)

Section Nesting.
Context {Ctx RW St : Type}.

(** The arguments an interceptor hands to [next]. *)
Definition call_args : Type := (Ctx * RW * option Request)%type.

Definition call3 {A} (f : Ctx -> RW -> option Request -> A) (a : call_args)
  : A :=
  f (fst (fst a)) (snd (fst a)) (snd a).

(** The two halves of an interceptor that calls [next] once: [before]
    runs first and yields the arguments for [next] (the ones received or
    derived ones) together with what [after] needs; [after] runs when
    [next] has returned. *)
Record wrap_shape : Type := mkShape {
  carried : Type;
  before : Ctx -> RW -> option Request -> M St (carried * call_args);
  after : carried -> M St unit
}.

(** The interceptor runs [before], calls its bound [next] once, on the
    arguments [before] yields, then runs [after]. *)
Definition wraps_next (h : Handler Ctx RW St) (sh : wrap_shape) : Prop :=
  forall ctx w r (next : ContextHandlerFunc Ctx RW St),
    h ctx w r next
    = (xa <- before sh ctx w r ;; call3 next (snd xa) ;; after sh (fst xa)).

(** Strict nesting, as the call stack has it: each interceptor's [before],
    then everything inside it, then its [after]; the terminal handler is
    innermost. *)
Fixpoint nested (shapes : list wrap_shape) (H : ContextHandlerFunc Ctx RW St)
         (a : call_args) : M St unit :=
  match shapes with
  | [] => call3 H a
  | sh :: rest =>
      xa <- call3 (before sh) a ;; nested rest H (snd xa) ;; after sh (fst xa)
  end.

(** A set of invocation points: the arguments and the world an interceptor
    is invoked with. *)
Definition point_pred : Type := Ctx -> RW -> option Request -> St -> Prop.

(** Invoked at a point of [P], the interceptor does not call [next]: its
    run there is the same whatever [next] is. *)
Definition ignores_next_on (P : point_pred) (h : Handler Ctx RW St) : Prop :=
  forall ctx w r s (n1 n2 : ContextHandlerFunc Ctx RW St),
    P ctx w r s -> h ctx w r n1 s = h ctx w r n2 s.

(** Invoked at a point of [Q], the interceptor calls [next] at points of
    [P] only: its run there depends on [next] through the runs of [next]
    at points of [P]. *)
Definition consults_next_within (Q P : point_pred) (h : Handler Ctx RW St)
  : Prop :=
  forall ctx w r s (n1 n2 : ContextHandlerFunc Ctx RW St),
    Q ctx w r s ->
    (forall ctx' w' r' s', P ctx' w' r' s' ->
                           n1 ctx' w' r' s' = n2 ctx' w' r' s') ->
    h ctx w r n1 s = h ctx w r n2 s.

(** When the chain [pre ++ ...] is entered at a point of [Q], what follows
    [pre] is invoked at points of [P] only. *)
Inductive reaches : point_pred -> list (Handler Ctx RW St) -> point_pred
                    -> Prop :=
| reaches_nil (Q P : point_pred) :
    (forall ctx w r s, Q ctx w r s -> P ctx w r s) -> reaches Q [] P
| reaches_cons (Q Q' P : point_pred) h pre :
    consults_next_within Q Q' h -> reaches Q' pre P ->
    reaches Q (h :: pre) P.
End Nesting.

Arguments call_args : clear implicits.
Arguments wrap_shape : clear implicits.
Arguments point_pred : clear implicits.

(** ** Registration (vermouth.go) *)

Section Registration.
Context {Ctx RW St : Type}.

(** The router lives in a file of its own; the dispatcher only registers
    terminal handlers with it and calls its [ServeHTTP]. *)
Variable Router : Type.
Variable Router_Handle :
  string -> string -> ContextHandlerFunc Ctx RW St -> Router -> Router.
Variable Router_ServeHTTP : Router -> ContextHandlerFunc Ctx RW St.

(** [HandlerType interface{}]: the dynamic type of the value passed to
    [Get], [Post] and [Handle], in the order of the type switch of
    [wrapHandlerFunc].  [HtOther] is a value of any other dynamic type,
    named as the verb [%T] prints it. *)
Inductive HandlerType : Type :=
| HtContextFunc (h : ContextHandlerFunc Ctx RW St)
| HtFunc (h : RW -> option Request -> M St unit)
| HtContextHandler (serve : ContextHandlerFunc Ctx RW St)
| HtHTTPHandler (serve : RW -> option Request -> M St unit)
| HtOther (dynamic_type : string).

(** [MiddlewareType interface{}]: the dynamic type of the value passed to
    [Use], in the order of the type switch of [wrapMiddlewareFunc]. *)
Inductive MiddlewareType : Type :=
| MwHandler (m : Handler Ctx RW St)
| MwContextFunc (m : Handler Ctx RW St)
| MwFunc (m : RW -> option Request ->
              (RW -> option Request -> M St unit) -> M St unit)
| MwOther (dynamic_type : string).

(** [func wrapHandlerFunc(handler HandlerType) ContextHandlerFunc]. *)
Definition wrapHandlerFunc {S} (handler : HandlerType)
  : M S (ContextHandlerFunc Ctx RW St) :=
  match handler with
  | HtContextFunc h => ret h
  | HtFunc h => ret (fun ctx w r => h w r)
  | HtContextHandler h => ret (fun ctx w r => h ctx w r)
  | HtHTTPHandler h => ret (fun _ w r => h w r)
  | HtOther t => throw (PanicString ("Unknown handler type: " ++ t))
  end.

(** [func wrapMiddlewareFunc(mw MiddlewareType) Handler]. *)
Definition wrapMiddlewareFunc {S} (mw : MiddlewareType)
  : M S (Handler Ctx RW St) :=
  match mw with
  | MwHandler m => ret m
  | MwContextFunc m => ret (HandlerFunc m)
  | MwFunc m =>
      ret (HandlerFunc (fun ctx w r next =>
                          m w r (fun w r => next ctx w r)))
  | MwOther t => throw (PanicString ("Unknown middleware type: " ++ t))
  end.

(** [type Vermouth struct { ctx; router; handlers }]. *)
Record Vermouth : Type := mkVermouth {
  vm_ctx : Ctx;
  vm_router : Router;
  vm_handlers : list (Handler Ctx RW St)
}.

(** [func (vm *Vermouth) Use(pattern string, mw MiddlewareType)]. *)
Definition Use (pattern : string) (mw : MiddlewareType) : M Vermouth unit :=
  handler <- wrapMiddlewareFunc mw ;;
  fun vm =>
    Done tt (mkVermouth (vm_ctx vm) (vm_router vm)
               (vm_handlers vm ++ [makeRoutingHandler pattern handler])).

(** [func (vm *Vermouth) Handle(method, pattern string, handler)]: the
    argument [wrapHandlerFunc(handler)] is evaluated before the router is
    called.  [vm_router] is the state of the router object [vm.router]
    points to, which [Handle] updates. *)
Definition Handle (method pattern : string) (handler : HandlerType)
  : M Vermouth unit :=
  h <- wrapHandlerFunc handler ;;
  fun vm =>
    Done tt (mkVermouth (vm_ctx vm)
               (Router_Handle method pattern h (vm_router vm))
               (vm_handlers vm)).

(** [func (vm *Vermouth) Get(pattern string, handler HandlerType)]. *)
Definition Get (pattern : string) (handler : HandlerType)
  : M Vermouth unit :=
  Handle "GET" pattern handler.

(** [func (vm *Vermouth) Post(pattern string, handler HandlerType)]. *)
Definition Post (pattern : string) (handler : HandlerType)
  : M Vermouth unit :=
  Handle "POST" pattern handler.

(** [func (vm *Vermouth) HandlerFunc() http.HandlerFunc]: the chain is
    built, when [HandlerFunc] is called, over the handlers registered by
    then followed by the adapter of the router [vm.router] points to.  The
    closure it returns reads [vm.ctx], and the adapter reads that router,
    when a request arrives: the root context and the state of the router
    at that time are the closure's first two arguments. *)
Definition Vermouth_HandlerFunc (vm : Vermouth)
  : Ctx -> Router -> RW -> option Request -> M St unit :=
  fun ctx_now router_now w r =>
    let md := build (vm_handlers vm
                       ++ [wrapHandler (Router_ServeHTTP router_now)]) in
    ServeHTTP md ctx_now w r.

(** [func (vm *Vermouth) ServeHTTP(w, r)]: as [HandlerFunc], on the
    response writer wrapped by [NewResponseWriter], which lives in a file of
    its own and is taken as [newResponseWriter]. *)
Definition Vermouth_ServeHTTP (newResponseWriter : RW -> RW) (vm : Vermouth)
  : RW -> option Request -> M St unit :=
  let md := build (vm_handlers vm
                     ++ [wrapHandler (Router_ServeHTTP (vm_router vm))]) in
  fun w r => ServeHTTP md (vm_ctx vm) (newResponseWriter w) r.

(** The shapes the type switches accept. *)
Definition supported_middleware (mw : MiddlewareType) : Prop :=
  match mw with MwOther _ => False | _ => True end.

Definition supported_handler (h : HandlerType) : Prop :=
  match h with HtOther _ => False | _ => True end.
End Registration.

Arguments HandlerType : clear implicits.
Arguments MiddlewareType : clear implicits.
Arguments Vermouth : clear implicits.

(** ** Test fixtures: interceptors that log markers *)

(** The interceptor of [TestVermouthServeHTTP]: [result += before;
    next(ctx, w, r); result += after], with the log as the world. *)
Definition emit (marker : string) : M (list string) unit :=
  fun log => Done tt (log ++ [marker]).

Definition wrapping (before after : string)
  : Handler unit unit (list string) :=
  fun ctx w r next => emit before ;; next ctx w r ;; emit after.

(** An interceptor that writes its own response and returns. *)
Definition terminal (marker : string) : Handler unit unit (list string) :=
  fun ctx w r next => emit marker.

(** A gate: it answers a nil request itself and lets every other request
    through to [next]. *)
Definition gate (marker : string) : Handler unit unit (list string) :=
  fun ctx w r next =>
    match r with
    | None => emit marker
    | Some _ => next ctx w r
    end.

(** An interceptor in the manner of the README: it logs, calls [next] on a
    context derived from the one it received (here: extended by its name),
    and logs again. *)
Definition deriving (name : string) : Handler string unit (list string) :=
  fun ctx w r next =>
    emit (name ++ "-before") ;; next (ctx ++ name)%string w r ;;
    emit (name ++ "-after").

(** The two halves of [deriving]. *)
Definition deriving_shape (name : string)
  : wrap_shape string unit (list string) :=
  mkShape (fun ctx w r => emit (name ++ "-before") ;;
                          ret (tt, ((ctx ++ name)%string, w, r)))
          (fun _ : unit => emit (name ++ "-after")).

(** A router whose dispatch must not be reached. *)
Definition unreachableRouter : ContextHandlerFunc unit unit (list string) :=
  fun ctx w r => throw (PanicString "router reached").

(** ** The instrumented response writer *)

(** [http.StatusOK]. *)
Definition StatusOK : Z := 200.

(** Modelled from the spec: the failures a response-sink operation can
    report.  [response_writer.go] is not among the sources; section 4.4 and
    section 7 name a capability-unsupported error and downstream I/O
    errors. *)
Inductive sink_error : Type :=
| ErrCapabilityUnsupported
| ErrDownstream (msg : string).

Section Sink.
Context {World Conn : Type}.

(** Modelled from the spec: the underlying response destination wrapped by
    the sink ([response_writer.go] is missing).  It lives in the world; it
    accepts a header commit and bytes, reporting how many bytes it took
    and whether it failed, and it may or may not have the raw-connection
    takeover capability. *)
Record Destination : Type := mkDestination {
  d_WriteHeader : Z -> World -> World;
  d_Write : list Byte.byte -> World -> (nat * option sink_error) * World;
  d_Hijack : option (World -> (sink_error + Conn) * World)
}.

(** Modelled from the spec: what a pre-write hook can observe of the sink
    (the accessors [status()], [size()], [committed()] of the missing
    [response_writer.go]). *)
Record snapshot : Type := mkSnapshot {
  snap_status : Z;
  snap_size : nat;
  snap_written : bool
}.

(** Modelled from the spec: a pre-write hook of the missing
    [response_writer.go]; it observes the sink and acts on the world. *)
Definition hook : Type := snapshot -> World -> World.

(** Modelled from the spec: the Response Sink of section 3 (the missing
    [response_writer.go]): the wrapped destination, [status],
    [bytesWritten], [written] and the ordered list of pre-write hooks. *)
Record responseWriter : Type := mkResponseWriter {
  rw_dest : Destination;
  rw_status : Z;
  rw_size : nat;
  rw_written : bool;
  rw_beforeFuncs : list hook
}.

(** Modelled from the spec: the constructor of the missing
    [response_writer.go]; the status defaults to OK, nothing is written,
    no hook is registered. *)
Definition NewResponseWriter (d : Destination) : responseWriter :=
  mkResponseWriter d StatusOK 0 false [].

(** Modelled from the spec: the pure accessors [status()], [size()] and
    [committed()] of the missing [response_writer.go]. *)
Definition Status (rw : responseWriter) : Z := rw_status rw.
Definition Size (rw : responseWriter) : nat := rw_size rw.
Definition Written (rw : responseWriter) : bool := rw_written rw.

Definition observe (rw : responseWriter) : snapshot :=
  mkSnapshot (rw_status rw) (rw_size rw) (rw_written rw).

(** Modelled from the spec: [registerPreWriteHook(fn)] of the missing
    [response_writer.go] appends a hook. *)
Definition Before (f : hook) (rw : responseWriter) : responseWriter :=
  mkResponseWriter (rw_dest rw) (rw_status rw) (rw_size rw) (rw_written rw)
                   (rw_beforeFuncs rw ++ [f]).

(** Modelled from the spec: running the registered hooks of the missing
    [response_writer.go], the most recently added first. *)
Definition callBefore (rw : responseWriter) (wd : World) : World :=
  fold_left (fun wd f => f (observe rw) wd) (rev (rw_beforeFuncs rw)) wd.

(** Modelled from the spec: [setStatus(code)], the explicit header commit
    of the missing [response_writer.go].  On a committed sink it is inert;
    otherwise it records the status, commits, runs the pre-write hooks and
    then sends the header to the destination. *)
Definition WriteHeader (code : Z) (st : responseWriter * World)
  : responseWriter * World :=
  let (rw, wd) := st in
  if rw_written rw then (rw, wd)
  else
    let rw' := mkResponseWriter (rw_dest rw) code (rw_size rw) true
                                (rw_beforeFuncs rw) in
    (rw', d_WriteHeader (rw_dest rw) code (callBefore rw' wd)).

(** Modelled from the spec: [write(bytes)] of the missing
    [response_writer.go].  If not yet committed it commits with the
    default status (running the hooks), then forwards the bytes and
    accumulates the byte count. *)
Definition Write (b : list Byte.byte) (st : responseWriter * World)
  : (nat * option sink_error) * (responseWriter * World) :=
  let (rw, wd) := if rw_written (fst st) then st
                  else WriteHeader StatusOK st in
  let (res, wd') := d_Write (rw_dest rw) b wd in
  (res, (mkResponseWriter (rw_dest rw) (rw_status rw)
                          (rw_size rw + fst res) (rw_written rw)
                          (rw_beforeFuncs rw),
         wd')).

(** Modelled from the spec: the raw-connection takeover of the missing
    [response_writer.go]: delegate when the destination has the
    capability, fail with the capability-unsupported error otherwise. *)
Definition Hijack (st : responseWriter * World)
  : (sink_error + Conn) * (responseWriter * World) :=
  let (rw, wd) := st in
  match d_Hijack (rw_dest rw) with
  | Some hijack => let (res, wd') := hijack wd in (res, (rw, wd'))
  | None => (inl ErrCapabilityUnsupported, (rw, wd))
  end.

(** The operations a request can perform on its sink, and their effect on
    the sink and the world. *)
Inductive sink_op : Type :=
| OpBefore (f : hook)
| OpWrite (b : list Byte.byte)
| OpWriteHeader (code : Z)
| OpHijack.

Definition apply_op (st : responseWriter * World) (o : sink_op)
  : responseWriter * World :=
  match o with
  | OpBefore f => (Before f (fst st), snd st)
  | OpWrite b => snd (Write b st)
  | OpWriteHeader code => WriteHeader code st
  | OpHijack => snd (Hijack st)
  end.

Definition run_ops (ops : list sink_op) (st : responseWriter * World)
  : responseWriter * World :=
  fold_left apply_op ops st.

Definition is_WriteHeader (o : sink_op) : bool :=
  match o with OpWriteHeader _ => true | _ => false end.

Definition is_Before (o : sink_op) : bool :=
  match o with OpBefore _ => true | _ => false end.

(** The destination takes every byte it is given. *)
Definition accepts_all (d : Destination) : Prop :=
  forall b wd, fst (fst (d_Write d b wd)) = List.length b.
End Sink.

Arguments Destination : clear implicits.
Arguments responseWriter : clear implicits.
Arguments hook : clear implicits.
Arguments sink_op : clear implicits.

(** ** Test fixtures: destinations (response_writer_test.go) *)

(** [httptest.ResponseRecorder], reduced to [Code] and [Body]; [events]
    logs, in order, the hooks that ran and what reached the recorder. *)
Inductive sink_event : Type :=
| EvHook (name : string)
| EvHeader (code : Z)
| EvBytes (b : list Byte.byte).

Record recorder : Type := mkRecorder {
  Code : Z;
  Body : list Byte.byte;
  wroteHeader : bool;
  events : list sink_event
}.

Definition NewRecorder : recorder := mkRecorder 200 [] false [].

Definition recorderDest : Destination recorder unit :=
  mkDestination
    (fun code rec =>
       mkRecorder (if wroteHeader rec then Code rec else code) (Body rec)
                  true (events rec ++ [EvHeader code]))
    (fun b rec =>
       ((List.length b, None),
        mkRecorder (Code rec) (Body rec ++ b) true
                   (events rec ++ [EvBytes b])))
    None.

(** A hook that logs its name, as the hooks of [TestResponseWriterBefore]
    append to [result]. *)
Definition namedHook (name : string) : hook recorder :=
  fun _ rec => mkRecorder (Code rec) (Body rec) (wroteHeader rec)
                          (events rec ++ [EvHook name]).

(** [hijackableResponse]: the world is its [Hijacked] flag; [Write] takes
    nothing; [Hijack] sets the flag and returns nil results. *)
Definition hijackableResponse : Destination bool (option unit) :=
  mkDestination
    (fun _ hijacked => hijacked)
    (fun _ hijacked => ((0, None), hijacked))
    (Some (fun _ => (inr None, true))).

(** ** The graceful observer (serve.go) *)

(** [graceful.Server], reduced to the grace period the observer reads. *)
Record Server : Type := mkServer { Timeout : Z }.

(** The two cases of the [select] in [ObserveContext]. *)
Inductive select_case : Type :=
| CaseCtxDone      (* case <-vm.ctx.Done(): srv.Stop(srv.Timeout) *)
| CaseStopChan.    (* case <-srv.StopChan(): *)

(** The goroutine started by [ObserveContext]: not yet at its [select],
    parked in the [select] with no case ready, or returned. *)
Inductive goroutine_state : Type := Spawned | Parked | Exited.

Record observer_world : Type := mkObserverWorld {
  ctx_done : bool;             (* vm.ctx.Done() is closed *)
  stop_chan_closed : bool;     (* srv.StopChan() is closed *)
  goroutine : goroutine_state;
  stop_calls : list Z          (* the srv.Stop(d) calls the observer made *)
}.

(** What happens around the observer: the root context is cancelled, the
    server's stop channel fires, or the goroutine is scheduled and reaches
    its [select]; [pick] is the pseudo-random choice Go makes when both
    cases are ready. *)
Inductive observer_event : Type :=
| EvCancel
| EvStopChan
| EvObserver (pick : select_case).

(** The body of the chosen [select] case, after which the goroutine
    returns. *)
Definition run_case (srv : Server) (c : select_case) (w : observer_world)
  : observer_world :=
  match c with
  | CaseCtxDone =>
      mkObserverWorld (ctx_done w) (stop_chan_closed w) Exited
                      (stop_calls w ++ [Timeout srv])
  | CaseStopChan =>
      mkObserverWorld (ctx_done w) (stop_chan_closed w) Exited (stop_calls w)
  end.

(** [select] on the two channels: no case when neither is ready, the ready
    one when one is, [pick] when both are. *)
Definition select_ready (w : observer_world) (pick : select_case)
  : option select_case :=
  match ctx_done w, stop_chan_closed w with
  | false, false => None
  | true, false => Some CaseCtxDone
  | false, true => Some CaseStopChan
  | true, true => Some pick
  end.

(** One event.  A goroutine parked in the [select] resumes with the case of
    the channel that fires; a goroutine reaching the [select] takes a ready
    case or parks. *)
Definition observer_step (srv : Server) (w : observer_world)
           (e : observer_event) : observer_world :=
  match e with
  | EvCancel =>
      let w' := mkObserverWorld true (stop_chan_closed w) (goroutine w)
                                (stop_calls w) in
      match goroutine w with
      | Parked => run_case srv CaseCtxDone w'
      | _ => w'
      end
  | EvStopChan =>
      let w' := mkObserverWorld (ctx_done w) true (goroutine w)
                                (stop_calls w) in
      match goroutine w with
      | Parked => run_case srv CaseStopChan w'
      | _ => w'
      end
  | EvObserver pick =>
      match goroutine w with
      | Spawned =>
          match select_ready w pick with
          | Some c => run_case srv c w
          | None =>
              mkObserverWorld (ctx_done w) (stop_chan_closed w) Parked
                              (stop_calls w)
          end
      | _ => w
      end
  end.

Definition observer_run (srv : Server) (evs : list observer_event)
           (w : observer_world) : observer_world :=
  fold_left (observer_step srv) evs w.

(** [func (vm *Vermouth) ObserveContext(srv)]: [go func() { select ... }()]
    spawns the goroutine; neither channel has fired and the observer has
    made no call. *)
Definition ObserveContext : observer_world :=
  mkObserverWorld false false Spawned [].

(** Invariants of the observer along a schedule. *)

Section ObserverInvariants.
Variable srv : Server.

(** Before returning the observer has made no call; afterwards at most the
    one with the configured grace period. *)
Definition at_most_one_stop (w : observer_world) : Prop :=
  match goroutine w with
  | Exited => stop_calls w = [] \/ stop_calls w = [Timeout srv]
  | _ => stop_calls w = []
  end.

(** While the stop channel has not fired: the observer ends with exactly
    one stop call as soon as the context is cancelled and the goroutine has
    reached its [select], in either order. *)
Definition ctx_phase (a : list observer_event) (w : observer_world) : Prop :=
  stop_chan_closed w = false /\
  match goroutine w with
  | Spawned => stop_calls w = [] /\
               (ctx_done w = true \/ In EvCancel a) /\
               (exists pick, In (EvObserver pick) a)
  | Parked => stop_calls w = [] /\ In EvCancel a
  | Exited => stop_calls w = [Timeout srv]
  end.

(** While the context has not been cancelled: the observer ends without a
    stop call as soon as the stop channel has fired and the goroutine has
    reached its [select], in either order. *)
Definition stop_phase (a : list observer_event) (w : observer_world) : Prop :=
  ctx_done w = false /\
  match goroutine w with
  | Spawned => stop_calls w = [] /\
               (stop_chan_closed w = true \/ In EvStopChan a) /\
               (exists pick, In (EvObserver pick) a)
  | Parked => stop_calls w = [] /\ In EvStopChan a
  | Exited => stop_calls w = []
  end.
End ObserverInvariants.

(** ** The rest of the dispatcher (vermouth.go) *)

Section Dispatcher.
Context {Ctx RW St Router : Type}.

(** [func (vm *Vermouth) Middlewares() []Handler]. *)
Definition Middlewares (vm : Vermouth Ctx RW St Router)
  : list (Handler Ctx RW St) :=
  vm_handlers vm.

(** [func (vm *Vermouth) SetContext(ctx context.Context) *Vermouth]. *)
Definition SetContext (ctx : Ctx) : M (Vermouth Ctx RW St Router) unit :=
  fun vm => Done tt (mkVermouth ctx (vm_router vm) (vm_handlers vm)).

(** [func (vm *Vermouth) SetRouter(router *Router) *Vermouth]: the
    dispatcher points to the given router from now on; [router] is the
    state of that router object. *)
Definition SetRouter (router : Router) : M (Vermouth Ctx RW St Router) unit :=
  fun vm => Done tt (mkVermouth (vm_ctx vm) router (vm_handlers vm)).

(** A run of [vm.Use(p1, m1); vm.Use(p2, m2); ...]. *)
Definition UseAll (regs : list (string * MiddlewareType Ctx RW St))
  : M (Vermouth Ctx RW St Router) unit :=
  seqM (map (fun reg => Use (fst reg) (snd reg)) regs).

(** The test the closure of [makeRoutingHandler] makes on a non-nil request:
    [isWildcard || strings.HasPrefix(r.URL.Path+"/", pattern)], on the
    pattern as captured. *)
Definition scope_matches (pattern path : string) : bool :=
  isWildcard pattern
  || HasPrefix (path ++ "/") (normalizePattern pattern).

(** A registered middleware with its pattern, as [Use] stores it. *)
Definition scoped (ph : string * Handler Ctx RW St) : Handler Ctx RW St :=
  makeRoutingHandler (fst ph) (snd ph).

(** An interceptor that only yields to [next]. *)
Definition passThrough : Handler Ctx RW St :=
  fun ctx w r next => next ctx w r.
End Dispatcher.

(** ** The earlier observer (serve.go, [observeContext] with one case) *)

(** [select { case <-vm.ctx.Done(): srv.Stop(srv.Timeout) }]: the only case
    is the context; the stop channel is not listened to.  A goroutine
    reaching the [select] takes the case if the context is done and parks
    otherwise; a parked goroutine resumes when the context is cancelled. *)
Definition observeContext_step (srv : Server) (w : observer_world)
           (e : observer_event) : observer_world :=
  match e with
  | EvCancel =>
      let w' := mkObserverWorld true (stop_chan_closed w) (goroutine w)
                                (stop_calls w) in
      match goroutine w with
      | Parked => run_case srv CaseCtxDone w'
      | _ => w'
      end
  | EvStopChan =>
      mkObserverWorld (ctx_done w) true (goroutine w) (stop_calls w)
  | EvObserver _ =>
      match goroutine w with
      | Spawned =>
          if ctx_done w then run_case srv CaseCtxDone w
          else mkObserverWorld (ctx_done w) (stop_chan_closed w) Parked
                               (stop_calls w)
      | _ => w
      end
  end.

Definition observeContext_run (srv : Server) (evs : list observer_event)
           (w : observer_world) : observer_world :=
  fold_left (observeContext_step srv) evs w.

(** What the one-case observer needs to end with its stop call: the
    context cancelled and the goroutine at its [select], in either order. *)
Definition cancel_phase (srv : Server) (a : list observer_event)
           (w : observer_world) : Prop :=
  match goroutine w with
  | Spawned => stop_calls w = [] /\
               (ctx_done w = true \/ In EvCancel a) /\
               (exists pick, In (EvObserver pick) a)
  | Parked => stop_calls w = [] /\ In EvCancel a
  | Exited => stop_calls w = [Timeout srv]
  end.

(** ** Server construction (the dispatcher with options) *)

Section ServerOptions.
(** [*tls.Config], the [TLSNextProto] map, the [ConnState] callback, the
    [ShutdownInitiated] callback, [*log.Logger] and the [http.Handler]. *)
Variables TLS NextProto ConnStateFn Callback Logger HTTPHandler : Type.

(** [type Options struct]; durations and sizes are Go integers, pointers,
    maps and functions are [None] when nil. *)
Record Options : Type := mkOptions {
  ReadTimeout : Z;
  WriteTimeout : Z;
  MaxHeaderBytes : Z;
  TLSConfig : option TLS;
  TLSNextProto : option NextProto;
  ConnState : option ConnStateFn;
  GracefulTimeout : Z;
  ListenLimit : Z;
  ShutdownInitiated : option Callback;
  NoSignalHandling : bool;
  ErrorLog : option Logger
}.

(** [http.Server], reduced to the fields [NewServer] sets. *)
Record http_Server : Type := mkHTTPServer {
  hs_Handler : HTTPHandler;
  hs_ReadTimeout : Z;
  hs_WriteTimeout : Z;
  hs_MaxHeaderBytes : Z;
  hs_TLSConfig : option TLS;
  hs_TLSNextProto : option NextProto;
  hs_ErrorLog : option Logger
}.

(** [graceful.Server]: the fields [NewServer] sets, and
    [ShutdownInitiated], which it leaves at its zero value. *)
Record graceful_Server : Type := mkGracefulServer {
  gs_Server : http_Server;
  gs_Timeout : Z;
  gs_ListenLimit : Z;
  gs_ConnState : option ConnStateFn;
  gs_NoSignalHandling : bool;
  gs_ShutdownInitiated : option Callback
}.

(** [func defaultOptions() *Options]. *)
Definition defaultOptions : Options :=
  mkOptions 0 0 0 None None None 0 0 None true None.

(** [func (vm *Vermouth) NewServer() *graceful.Server], on the dispatcher
    as [http.Handler] and its [Options] pointer. *)
Definition NewServer (vm : HTTPHandler) (vm_Options : option Options)
  : graceful_Server :=
  let opts := match vm_Options with
              | None => defaultOptions
              | Some o => o
              end in
  let srv := mkHTTPServer vm (ReadTimeout opts) (WriteTimeout opts)
                          (MaxHeaderBytes opts) (TLSConfig opts)
                          (TLSNextProto opts) (ErrorLog opts) in
  mkGracefulServer srv (GracefulTimeout opts) (ListenLimit opts)
                   (ConnState opts) (NoSignalHandling opts) None.

(** The part of the server the observer reads: [srv.Timeout]. *)
Definition observed (srv : graceful_Server) : Server :=
  mkServer (gs_Timeout srv).

(** Two option sets that differ at most in [ShutdownInitiated]. *)
Definition same_but_ShutdownInitiated (o1 o2 : Options) : Prop :=
  ReadTimeout o1 = ReadTimeout o2 /\
  WriteTimeout o1 = WriteTimeout o2 /\
  MaxHeaderBytes o1 = MaxHeaderBytes o2 /\
  TLSConfig o1 = TLSConfig o2 /\
  TLSNextProto o1 = TLSNextProto o2 /\
  ConnState o1 = ConnState o2 /\
  GracefulTimeout o1 = GracefulTimeout o2 /\
  ListenLimit o1 = ListenLimit o2 /\
  NoSignalHandling o1 = NoSignalHandling o2 /\
  ErrorLog o1 = ErrorLog o2.
End ServerOptions.

(* ================================================================= *)
(** * Part II.  Theorems *)
(* ================================================================= *)

(** ** Laws of the state-and-panic monad *)

Section MonadLaws.
Context {St : Type}.

Lemma bind_ret_l {A B} (a : A) (k : A -> M St B) : bind (ret a) k = k a.
Proof. reflexivity. Qed.

Lemma bind_ret_r (m : M St unit) : (m ;; ret tt) = m.
Proof.
  extensionality s. unfold bind, ret.
  destruct (m s) as [[] s'|p]; reflexivity.
Qed.

Lemma bind_assoc {A B C} (m : M St A) (f : A -> M St B) (g : B -> M St C) :
  bind (bind m f) g = bind m (fun a => bind (f a) g).
Proof.
  extensionality s. unfold bind.
  destruct (m s) as [a s'|p]; reflexivity.
Qed.

Lemma bind_ext {A B} (m : M St A) (k1 k2 : A -> M St B) :
  (forall a, k1 a = k2 a) -> bind m k1 = bind m k2.
Proof.
  intros Hk. f_equal. extensionality a. apply Hk.
Qed.

Lemma seqM_app (xs ys : list (M St unit)) :
  seqM (xs ++ ys) = (seqM xs ;; seqM ys).
Proof.
  induction xs as [|x xs IH]; simpl.
  - reflexivity.
  - rewrite IH, bind_assoc. reflexivity.
Qed.
End MonadLaws.

(** ** The chain builder and executor *)

Section ChainFacts.
Context {Ctx RW St : Type}.
#[local] Abbreviation Handler := (Handler Ctx RW St).
#[local] Abbreviation ContextHandlerFunc := (ContextHandlerFunc Ctx RW St).
#[local] Abbreviation middleware := (middleware Ctx RW St).

(** Both non-empty branches of [build] link the head to the chain built
    from the tail. *)
Lemma build_cons (h : Handler) (tl : list Handler) :
  build (h :: tl) = Middleware (Some h) (Some (build tl)).
Proof. destruct tl; reflexivity. Qed.

Lemma ServeHTTP_cons (h : Handler) (tl : list Handler) ctx w r :
  ServeHTTP (build (h :: tl)) ctx w r = h ctx w r (ServeHTTP (build tl)).
Proof. rewrite build_cons. reflexivity. Qed.

Lemma ServeHTTP_void ctx w r :
  ServeHTTP (voidMiddleware : middleware) ctx w r = ret tt.
Proof. reflexivity. Qed.

(** Interceptors of the form [before; next; after] nest around whatever
    chain follows them. *)
Lemma nesting_around ctx w r (hs : list Handler)
      (bas : list (M St unit * M St unit)) (rest : list Handler) :
  Forall2 (calls_next_once ctx w r) hs bas ->
  ServeHTTP (build (hs ++ rest)) ctx w r
  = (seqM (map fst bas) ;; ServeHTTP (build rest) ctx w r ;;
     seqM (rev (map snd bas))).
Proof.
  induction 1 as [|h ba hs bas Hh _ IH].
  - simpl. now rewrite bind_ret_r.
  - change ((h :: hs) ++ rest) with (h :: (hs ++ rest)).
    rewrite ServeHTTP_cons, Hh, IH. simpl.
    rewrite seqM_app. simpl. rewrite bind_ret_r, !bind_assoc.
    reflexivity.
Qed.

(** Interceptors that call [next] once, on whatever arguments, nest around
    the terminal handler. *)
Lemma nested_chain (hs : list Handler) (shapes : list (wrap_shape Ctx RW St))
      (H : ContextHandlerFunc) :
  Forall2 wraps_next hs shapes ->
  forall ctx w r,
    ServeHTTP (build (hs ++ [wrapHandler H])) ctx w r
    = nested shapes H (ctx, w, r).
Proof.
  induction 1 as [|h sh hs shapes Hh _ IH]; intros ctx w r.
  - simpl app. rewrite ServeHTTP_cons. unfold wrapHandler, HandlerFunc.
    simpl build. rewrite ServeHTTP_void. simpl. apply bind_ret_r.
  - change ((h :: hs) ++ [wrapHandler H])
      with (h :: (hs ++ [wrapHandler H])).
    rewrite ServeHTTP_cons, Hh. simpl. unfold call3 at 2. simpl.
    apply bind_ext. intros [x [[ctx' w'] r']]. simpl.
    unfold call3 at 1. simpl. now rewrite IH.
Qed.

(** C1.  Interceptors registered ahead of the terminal adapter of a
    handler [H], each running its [before], calling [next] once (on the
    arguments it received or on derived ones) and then running its [after],
    execute strictly nested.  For [A, B, C] that is: A's before, B's
    before, C's before, [H], C's after, B's after, A's after.  When the
    arguments are handed on unchanged, a chain of any length runs the
    befores in registration order, then [H], then the afters in reverse
    registration order. *)
Theorem chain_lifo_nesting (H : ContextHandlerFunc) :
  (forall (hs : list Handler) (shapes : list (wrap_shape Ctx RW St)),
      Forall2 wraps_next hs shapes ->
      forall ctx w r,
        ServeHTTP (build (hs ++ [wrapHandler H])) ctx w r
        = nested shapes H (ctx, w, r)) /\
  (forall (A B C : Handler) (sa sb sc : wrap_shape Ctx RW St),
      wraps_next A sa -> wraps_next B sb -> wraps_next C sc ->
      forall ctx w r,
        ServeHTTP (build ([A; B; C] ++ [wrapHandler H])) ctx w r
        = (xa <- before sa ctx w r ;;
           xb <- call3 (before sb) (snd xa) ;;
           xc <- call3 (before sc) (snd xb) ;;
           call3 H (snd xc) ;;
           after sc (fst xc) ;; after sb (fst xb) ;; after sa (fst xa))) /\
  (forall (hs : list Handler) (bas : list (M St unit * M St unit)) ctx w r,
      Forall2 (calls_next_once ctx w r) hs bas ->
      ServeHTTP (build (hs ++ [wrapHandler H])) ctx w r
      = (seqM (map fst bas) ;; H ctx w r ;; seqM (rev (map snd bas)))).
Proof.
  split; [exact (fun hs shapes => @nested_chain hs shapes H)|]. split.
  - intros A B C sa sb sc Ha Hb Hc ctx w r.
    rewrite (@nested_chain [A; B; C] [sa; sb; sc] H)
      by (repeat constructor; assumption).
    simpl nested. unfold call3 at 1. simpl.
    apply bind_ext. intros xa. rewrite bind_assoc.
    apply bind_ext. intros xb. rewrite !bind_assoc.
    apply bind_ext. intros xc. rewrite !bind_assoc. reflexivity.
  - intros hs bas ctx w r Hc. rewrite (nesting_around [wrapHandler H] Hc).
    rewrite ServeHTTP_cons. unfold wrapHandler, HandlerFunc.
    simpl build. rewrite ServeHTTP_void, bind_ret_r. reflexivity.
Qed.

(** What follows an interceptor that ignores [next] is never consulted. *)
Lemma ServeHTTP_ignores_next (hk : Handler) (post post' : list Handler) :
  ignores_next hk ->
  ServeHTTP (build (hk :: post)) = ServeHTTP (build (hk :: post')).
Proof.
  intros Hk. extensionality ctx. extensionality w. extensionality r.
  rewrite !ServeHTTP_cons. apply Hk.
Qed.

Lemma ServeHTTP_prefix_congr (pre l1 l2 : list Handler) :
  ServeHTTP (build l1) = ServeHTTP (build l2) ->
  ServeHTTP (build (pre ++ l1)) = ServeHTTP (build (pre ++ l2)).
Proof.
  intros E. induction pre as [|p pre IH]; simpl app.
  - exact E.
  - extensionality ctx. extensionality w. extensionality r.
    rewrite !ServeHTTP_cons, IH. reflexivity.
Qed.

(** What follows the prefix is consulted at the points the prefix reaches
    only. *)
Lemma reaches_congr (Q P : point_pred Ctx RW St) (pre l1 l2 : list Handler) :
  reaches Q pre P ->
  (forall ctx w r s, P ctx w r s ->
                     ServeHTTP (build l1) ctx w r s
                     = ServeHTTP (build l2) ctx w r s) ->
  forall ctx w r s, Q ctx w r s ->
                    ServeHTTP (build (pre ++ l1)) ctx w r s
                    = ServeHTTP (build (pre ++ l2)) ctx w r s.
Proof.
  induction 1 as [Q P Hsub|Q Q' P h pre Hh _ IH]; intros E ctx w r s Hq.
  - simpl. apply E, Hsub, Hq.
  - simpl app. rewrite !ServeHTTP_cons.
    apply (Hh ctx w r s _ _ Hq). intros ctx' w' r' s' Hq'.
    now apply IH.
Qed.

(** C2.  If, in its invocation, the interceptor at position [k] does not
    call its bound [next], the chain from [k] on executes exactly the
    interceptor's own code and returns, whatever is registered after it.
    Behind a prefix [pre]: if [k] does not call [next] at any point at
    which the prefix invokes it, the run of the whole chain is the same
    whatever is registered after [k] (interceptors or the router adapter),
    so none of them executes.  For an interceptor that never calls [next]
    this holds of every run. *)
Theorem short_circuit (pre : list Handler) (hk : Handler)
        (post : list Handler) :
  (forall ctx w r s,
      (forall n1 n2 : ContextHandlerFunc,
          hk ctx w r n1 s = hk ctx w r n2 s) ->
      (forall next : ContextHandlerFunc,
          ServeHTTP (build (hk :: post)) ctx w r s = hk ctx w r next s) /\
      (forall post' : list Handler,
          ServeHTTP (build (hk :: post)) ctx w r s
          = ServeHTTP (build (hk :: post')) ctx w r s)) /\
  (forall Q P : point_pred Ctx RW St,
      reaches Q pre P -> ignores_next_on P hk ->
      forall (post' : list Handler) ctx w r s,
        Q ctx w r s ->
        ServeHTTP (build (pre ++ hk :: post)) ctx w r s
        = ServeHTTP (build (pre ++ hk :: post')) ctx w r s) /\
  (ignores_next hk ->
   (forall post' : list Handler,
       ServeHTTP (build (pre ++ hk :: post))
       = ServeHTTP (build (pre ++ hk :: post'))) /\
   ServeHTTP (build (pre ++ hk :: post)) = ServeHTTP (build (pre ++ [hk])) /\
   (forall ctx w r (next : ContextHandlerFunc),
       ServeHTTP (build (hk :: post)) ctx w r = hk ctx w r next)).
Proof.
  split; [|split].
  - intros ctx w r s Hk. split.
    + intros next. rewrite ServeHTTP_cons. apply Hk.
    + intros post'. rewrite !ServeHTTP_cons. apply Hk.
  - intros Q P Hr Hk post' ctx w r s Hq.
    apply (@reaches_congr Q P pre _ _ Hr); [|exact Hq].
    intros ctx' w' r' s' Hp. rewrite !ServeHTTP_cons. now apply Hk.
  - intros Hk. repeat split.
    + intros post'. apply ServeHTTP_prefix_congr.
      now apply ServeHTTP_ignores_next.
    + apply ServeHTTP_prefix_congr. now apply ServeHTTP_ignores_next.
    + intros ctx w r next. rewrite ServeHTTP_cons. apply Hk.
Qed.



End ChainFacts.

(** The chain [A, B, C] ahead of [H], each interceptor extending the
    context by its name: the log is nested and [H] sees the context
    derived three times. *)
Lemma chain_lifo_nesting_witness :
  let H := fun (ctx : string) (_ : unit) (_ : option Request) =>
             emit ("H:" ++ ctx) in
  wraps_next (deriving "A") (deriving_shape "A") /\
  wraps_next (deriving "B") (deriving_shape "B") /\
  wraps_next (deriving "C") (deriving_shape "C") /\
  ServeHTTP (build ([deriving "A"; deriving "B"; deriving "C"]
                      ++ [wrapHandler H])) "" tt None []
  = Done tt ["A-before"; "B-before"; "C-before"; "H:ABC";
             "C-after"; "B-after"; "A-after"].
Proof.
  assert (Hw : forall name, wraps_next (deriving name) (deriving_shape name)).
  { intros name ctx w r next. unfold deriving, deriving_shape. simpl.
    rewrite bind_assoc. reflexivity. }
  split; [apply Hw|]. split; [apply Hw|]. split; [apply Hw|].
  rewrite (proj1 (proj2 (chain_lifo_nesting
                           (fun (ctx : string) (_ : unit)
                                (_ : option Request) =>
                              emit ("H:" ++ ctx))))
             _ _ _ _ _ _ (Hw "A") (Hw "B") (Hw "C")).
  reflexivity.
Defined.

Lemma wrapping_consults_next (b a : string) :
  consults_next_within (fun _ _ r _ => r = None) (fun _ _ r _ => r = None)
                       (wrapping b a).
Proof.
  intros ctx w r s n1 n2 Hr Hn. unfold wrapping, bind, emit.
  now rewrite (Hn ctx w r (s ++ [b])%list Hr).
Qed.

(** A gate that answers nil requests itself, behind two logging
    interceptors and ahead of a router that must not be reached: on a nil
    request the router is not reached and the log is foo bar denied baz
    ban; the gate does call [next] on other requests. *)
Lemma short_circuit_witness :
  let pre := [wrapping "foo" "ban"; wrapping "bar" "baz"] in
  let post := [wrapHandler unreachableRouter] in
  let nil_request := fun (_ _ : unit) (r : option Request)
                         (_ : list string) => r = None in
  reaches nil_request pre nil_request /\
  ignores_next_on nil_request (gate "denied") /\
  ServeHTTP (build (pre ++ gate "denied" :: post)) tt tt None []
  = ServeHTTP (build (pre ++ gate "denied" :: [])) tt tt None [] /\
  ServeHTTP (build (pre ++ gate "denied" :: post)) tt tt None []
  = Done tt ["foo"; "bar"; "denied"; "baz"; "ban"].
Proof.
  assert (Hr : reaches (fun (_ _ : unit) (r : option Request)
                            (_ : list string) => r = None)
                 [wrapping "foo" "ban"; wrapping "bar" "baz"]
                 (fun _ _ r _ => r = None)).
  { apply reaches_cons with (Q' := fun _ _ r _ => r = None);
      [apply wrapping_consults_next|].
    apply reaches_cons with (Q' := fun _ _ r _ => r = None);
      [apply wrapping_consults_next|].
    apply reaches_nil. auto. }
  assert (Hg : ignores_next_on (fun (_ _ : unit) (r : option Request)
                                    (_ : list string) => r = None)
                 (gate "denied")).
  { intros ctx w r s n1 n2 ->. reflexivity. }
  split; [exact Hr|]. split; [exact Hg|]. split; [|reflexivity].
  exact (proj1 (proj2 (short_circuit
                         [wrapping "foo" "ban"; wrapping "bar" "baz"]
                         (gate "denied") [wrapHandler unreachableRouter]))
           _ _ Hr Hg [] tt tt None [] eq_refl).
Defined.



(** ** The scoped-middleware wrapper *)

Section Scoped.
Context {Ctx RW St : Type}.
Local Open Scope string_scope.
#[local] Abbreviation Handler := (Handler Ctx RW St).
#[local] Abbreviation ContextHandlerFunc := (ContextHandlerFunc Ctx RW St).

(** [path ++ "/"] starts with [q ++ "/"] exactly when [path] is [q] or
    lies below [q ++ "/"]. *)
Lemma prefix_slash (q path : string) :
  String.prefix (q ++ "/") (path ++ "/") = true
  <-> path = q \/ String.prefix (q ++ "/") path = true.
Proof.
  revert path. induction q as [|x q IH]; intros [|a path];
    cbn [append String.prefix].
  - split; auto.
  - destruct (ascii_dec "/" a).
    + split; intros _; [right|]; destruct path; reflexivity.
    + split; [discriminate|]. intros [E|E]; discriminate E.
  - split.
    + destruct (ascii_dec x "/"); [destruct q|]; discriminate.
    + intros [E|E]; discriminate E.
  - destruct (ascii_dec x a) as [->|Hne].
    + rewrite IH. split; (intros [E|E]; [left; congruence|right; exact E]).
    + split; [discriminate|]. intros [E|E]; congruence.
Qed.

Lemma last_byte_app_slash (s : string) : last_byte (s ++ "/") = Some "/"%char.
Proof.
  induction s as [|c s IH]; [reflexivity|].
  simpl. rewrite IH. destruct (s ++ "/")%string eqn:E; [|reflexivity].
  destruct s; discriminate.
Qed.

Lemma last_byte_slash_inv (s : string) :
  last_byte s = Some "/"%char -> exists q, s = q ++ "/".
Proof.
  induction s as [|c s IH]; [discriminate|].
  destruct s as [|d s].
  - simpl. intros [= ->]. now exists "".
  - intros Hl. destruct IH as [q Hq]; [exact Hl|].
    exists (String c q). simpl. now rewrite <- Hq.
Qed.

Lemma isWildcard_app_slash (pattern : string) :
  isWildcard pattern = false -> isWildcard (pattern ++ "/") = false.
Proof.
  destruct pattern as [|c [|d p]]; [discriminate| |]; intros _;
    unfold isWildcard; simpl; destruct (Ascii.eqb c "/"); reflexivity.
Qed.

(** A non-wildcard pattern is captured with exactly one path separator
    appended unless it already ends in one. *)
Lemma normalizePattern_slash (pattern : string) :
  isWildcard pattern = false ->
  exists q, normalizePattern pattern = q ++ "/" /\
            (pattern = q \/ pattern = q ++ "/").
Proof.
  intros Hw. unfold normalizePattern. rewrite Hw. simpl.
  destruct (last_byte pattern) as [c|] eqn:El; simpl.
  - destruct (Ascii.eqb_spec c "/"%char) as [->|Hne]; simpl.
    + destruct (last_byte_slash_inv _ El) as [q ->]. eauto.
    + eauto.
  - eauto.
Qed.

(** C3, amended.  For a non-wildcard pattern and a non-nil request that
    carries a URL, the wrapper compares against the pattern with a trailing
    path separator: it runs the wrapped middleware exactly when the request
    path is the prefix itself or lies below it, and otherwise calls [next];
    a pattern with and without the trailing separator gives the same
    wrapper; with ["/api"] it runs the middleware for ["/api"], ["/api/"],
    ["/api/x"] and passes ["/apikey"] through to [next]. *)
Theorem scoped_prefix_activation (handler : Handler) ctx w
        (next : ContextHandlerFunc) :
  (forall pattern req u,
      isWildcard pattern = false ->
      URL req = Some u ->
      exists q,
        normalizePattern pattern = q ++ "/" /\
        (pattern = q \/ pattern = q ++ "/") /\
        let path := Path u in
        ((path = q \/ String.prefix (q ++ "/") path = true) ->
         makeRoutingHandler pattern handler ctx w (Some req) next
         = handler ctx w (Some req) next) /\
        (~ (path = q \/ String.prefix (q ++ "/") path = true) ->
         makeRoutingHandler pattern handler ctx w (Some req) next
         = next ctx w (Some req))) /\
  (forall pattern,
      isWildcard pattern = false ->
      last_byte pattern <> Some "/"%char ->
      makeRoutingHandler (pattern ++ "/") handler
      = makeRoutingHandler pattern handler) /\
  (let at_path p := Some (mkRequest (Some (mkURL p))) in
   makeRoutingHandler "/api" handler ctx w (at_path "/api") next
   = handler ctx w (at_path "/api") next /\
   makeRoutingHandler "/api" handler ctx w (at_path "/api/") next
   = handler ctx w (at_path "/api/") next /\
   makeRoutingHandler "/api" handler ctx w (at_path "/api/x") next
   = handler ctx w (at_path "/api/x") next /\
   makeRoutingHandler "/api" handler ctx w (at_path "/apikey") next
   = next ctx w (at_path "/apikey")).
Proof.
  split; [|split].
  - intros pattern req u Hw Hu.
    destruct (normalizePattern_slash _ Hw) as (q & Hn & Hq).
    exists q. split; [exact Hn|]. split; [exact Hq|].
    cbv zeta. unfold makeRoutingHandler, HandlerFunc, HasPrefix.
    rewrite Hw, Hn, Hu. split; intros Hp.
    + apply prefix_slash in Hp. now rewrite Hp.
    + destruct (String.prefix (q ++ "/") (Path u ++ "/")) eqn:E;
        [|reflexivity].
      exfalso. apply Hp. now apply prefix_slash.
  - intros pattern Hw Hl.
    unfold makeRoutingHandler.
    rewrite (isWildcard_app_slash _ Hw), Hw.
    replace (normalizePattern (pattern ++ "/"))
      with (normalizePattern pattern); [reflexivity|].
    unfold normalizePattern.
    rewrite (isWildcard_app_slash _ Hw), Hw, last_byte_app_slash. simpl.
    destruct (last_byte pattern) as [c|]; simpl; [|reflexivity].
    destruct (Ascii.eqb_spec c "/"%char) as [->|]; [congruence|reflexivity].
  - repeat split.
Qed.

Lemma nil_request_chain (phs : list (string * Handler))
      (tl : list Handler) :
  Forall (fun ph => forwards_request (snd ph)) phs ->
  forall ctx w,
    ServeHTTP (build (map (fun ph => makeRoutingHandler (fst ph) (snd ph)) phs
                        ++ tl)%list) ctx w None
    = ServeHTTP (build (map snd phs ++ tl)%list) ctx w None.
Proof.
  induction 1 as [|[p h] phs Hh _ IH]; intros ctx w.
  - reflexivity.
  - simpl map. simpl app. rewrite !ServeHTTP_cons.
    unfold makeRoutingHandler, HandlerFunc. simpl.
    apply Hh. exact IH.
Qed.

(** C9.  With a nil request the wrapper runs the wrapped middleware
    whatever the pattern is; hence a chain of middlewares registered under
    arbitrary patterns, each handing on the request it received, runs on a
    nil request as the chain of the unwrapped middlewares does. *)
Theorem nil_request_activates :
  (forall (pattern : string) (handler : Handler) ctx w
          (next : ContextHandlerFunc),
      makeRoutingHandler pattern handler ctx w None next
      = handler ctx w None next) /\
  (forall (phs : list (string * Handler)) (tl : list Handler),
      Forall (fun ph => forwards_request (snd ph)) phs ->
      forall ctx w,
        ServeHTTP
          (build (map (fun ph => makeRoutingHandler (fst ph) (snd ph)) phs
                    ++ tl)%list) ctx w None
        = ServeHTTP (build (map snd phs ++ tl)%list) ctx w None).
Proof.
  split.
  - intros pattern handler ctx w next. reflexivity.
  - exact nil_request_chain.
Qed.
End Scoped.

(** The pattern ["/api"] against the path ["/api/x"], and with and without
    the trailing separator. *)
Lemma scoped_prefix_activation_witness :
  isWildcard "/api" = false /\
  last_byte "/api" <> Some "/"%char /\
  (exists q,
      normalizePattern "/api" = (q ++ "/")%string /\
      makeRoutingHandler "/api" (terminal "api") tt tt
        (Some (mkRequest (Some (mkURL "/api/x"))))
        (fun _ _ _ => emit "next") []
      = Done tt ["api"]) /\
  makeRoutingHandler "/api/" (terminal "api")
  = makeRoutingHandler "/api" (terminal "api").
Proof.
  pose proof (scoped_prefix_activation (terminal "api") tt tt
                (fun _ _ _ => emit "next")) as (Hgen & Hslash & _).
  split; [reflexivity|]. split; [discriminate|]. split.
  - destruct (Hgen "/api" (mkRequest (Some (mkURL "/api/x")))
                (mkURL "/api/x") eq_refl eq_refl)
      as (q & Hn & _ & Hyes & _).
    exists q. split; [exact Hn|].
    rewrite Hyes; [reflexivity|].
    right. rewrite <- Hn. reflexivity.
  - apply (Hslash "/api"); [reflexivity|discriminate].
Defined.

(** C3 as stated fails: a non-nil request whose URL is nil, under the
    non-wildcard pattern ["/api"].  The wrapper panics on [r.URL.Path]: it
    neither runs the middleware nor calls [next]. *)
Lemma scoped_nil_URL_counterexample :
  let run := makeRoutingHandler "/api" (terminal "api") tt tt
               (Some (mkRequest None)) (fun _ _ _ => emit "next") [] in
  run = Panic NilDereference /\
  run <> terminal "api" tt tt (Some (mkRequest None))
           (fun _ _ _ => emit "next") [] /\
  run <> emit "next" [].
Proof.
  cbv zeta. split; [reflexivity|]. split; discriminate.
Qed.

Lemma wrapping_forwards_request (b a : string) :
  forwards_request (wrapping b a).
Proof.
  intros ctx w r n1 n2 Hn. unfold wrapping. now rewrite Hn.
Qed.

(** Interceptors registered under ["/api"] and ["/admin"] both run on a nil
    request. *)
Lemma nil_request_activates_witness :
  let phs := [("/api", wrapping "api-in" "api-out");
              ("/admin", wrapping "admin-in" "admin-out")] in
  Forall (fun ph => forwards_request (snd ph)) phs /\
  ServeHTTP (build (map (fun ph => makeRoutingHandler (fst ph) (snd ph)) phs
                      ++ [terminal "H"])) tt tt None []
  = Done tt ["api-in"; "admin-in"; "H"; "admin-out"; "api-out"].
Proof.
  assert (Hf : Forall (fun ph => forwards_request (snd ph))
                 [("/api", wrapping "api-in" "api-out");
                  ("/admin", wrapping "admin-in" "admin-out")])
    by (repeat constructor; apply wrapping_forwards_request).
  split; [exact Hf|].
  rewrite (proj2 nil_request_activates _ [terminal "H"] Hf tt tt).
  reflexivity.
Defined.

(** ** Registration *)

Section RegistrationFacts.
Context {Ctx RW St Router : Type}.
Variable Router_Handle :
  string -> string -> ContextHandlerFunc Ctx RW St -> Router -> Router.

(** C6.  A value of an unsupported dynamic type makes [Use], [Handle],
    [Get] and [Post] panic at registration with a message naming the
    type, and no dispatcher is produced; a value of a supported shape is
    registered without a panic. *)
Theorem unsupported_shape_panics (vm : Vermouth Ctx RW St Router)
        (method pattern : string) :
  (forall t,
      Use pattern (MwOther t) vm
      = Panic (PanicString ("Unknown middleware type: " ++ t)) /\
      Handle Router_Handle method pattern (HtOther t) vm
      = Panic (PanicString ("Unknown handler type: " ++ t)) /\
      Get Router_Handle pattern (HtOther t) vm
      = Panic (PanicString ("Unknown handler type: " ++ t)) /\
      Post Router_Handle pattern (HtOther t) vm
      = Panic (PanicString ("Unknown handler type: " ++ t))) /\
  (forall mw, supported_middleware mw ->
              exists vm', Use pattern mw vm = Done tt vm') /\
  (forall h, supported_handler h ->
             exists vm', Handle Router_Handle method pattern h vm
                         = Done tt vm').
Proof.
  split; [|split].
  - intros t. repeat split.
  - intros [m|m|m|t] Hs; try (eexists; reflexivity). destruct Hs.
  - intros [h|h|h|h|t] Hs; try (eexists; reflexivity). destruct Hs.
Qed.
End RegistrationFacts.

(** Registering a string as middleware panics; registering a logging
    interceptor succeeds. *)
Lemma unsupported_shape_panics_witness :
  let vm := mkVermouth tt tt ([] : list (Handler unit unit (list string))) in
  let reg := fun (_ _ : string)
                 (_ : ContextHandlerFunc unit unit (list string))
                 (r : unit) => r in
  Use "/" (MwOther "string") vm
  = Panic (PanicString "Unknown middleware type: string") /\
  supported_middleware (MwHandler (wrapping "foo" "ban")) /\
  exists vm', Use "/" (MwHandler (wrapping "foo" "ban")) vm = Done tt vm'.
Proof.
  pose proof (unsupported_shape_panics
                (fun (_ _ : string)
                     (_ : ContextHandlerFunc unit unit (list string))
                     (r : unit) => r)
                (mkVermouth tt tt []) "GET" "/") as (Hbad & Hgood & _).
  split; [exact (proj1 (Hbad "string"))|].
  split; [exact I|].
  exact (Hgood (MwHandler (wrapping "foo" "ban")) I).
Defined.

(** ** The instrumented response writer *)

Section SinkFacts.
Context {World Conn : Type}.
#[local] Abbreviation Destination := (Destination World Conn).
#[local] Abbreviation responseWriter := (responseWriter World Conn).
#[local] Abbreviation sink_op := (sink_op World).

Lemma Write_size (b : list Byte.byte) (st : responseWriter * World) :
  Size (fst (snd (Write b st))) = Size (fst st) + fst (fst (Write b st)).
Proof.
  destruct st as [rw wd]. unfold Write, WriteHeader. simpl.
  destruct (rw_written rw); simpl;
    match goal with
    | |- context [d_Write ?d ?b ?w] => destruct (d_Write d b w) as [res wd']
    end; reflexivity.
Qed.

Lemma Write_dest (b : list Byte.byte) (st : responseWriter * World) :
  rw_dest (fst (snd (Write b st))) = rw_dest (fst st).
Proof.
  destruct st as [rw wd]. unfold Write, WriteHeader. simpl.
  destruct (rw_written rw); simpl;
    match goal with
    | |- context [d_Write ?d ?b ?w] => destruct (d_Write d b w) as [res wd']
    end; reflexivity.
Qed.

Lemma Write_count (b : list Byte.byte) (st : responseWriter * World) :
  accepts_all (rw_dest (fst st)) -> fst (fst (Write b st)) = List.length b.
Proof.
  destruct st as [rw wd]. unfold Write, WriteHeader. simpl. intros Hd.
  destruct (rw_written rw); simpl;
    match goal with
    | |- context [d_Write ?d ?b ?w] =>
        specialize (Hd b w); destruct (d_Write d b w) as [res wd']
    end; exact Hd.
Qed.

Lemma Write_written (b : list Byte.byte) (st : responseWriter * World) :
  Written (fst (snd (Write b st))) = true.
Proof.
  destruct st as [rw wd]. unfold Write, WriteHeader. simpl.
  destruct (rw_written rw) eqn:E; simpl;
    match goal with
    | |- context [d_Write ?d ?b ?w] => destruct (d_Write d b w) as [res wd']
    end; simpl; auto.
Qed.

Lemma WriteHeader_written (code : Z) (st : responseWriter * World) :
  Written (fst (WriteHeader code st)) = true.
Proof.
  destruct st as [rw wd]. unfold WriteHeader.
  destruct (rw_written rw) eqn:E; simpl; auto.
Qed.

Lemma WriteHeader_inert (code : Z) (st : responseWriter * World) :
  Written (fst st) = true -> WriteHeader code st = st.
Proof.
  destruct st as [rw wd]. unfold Written, WriteHeader. simpl.
  now intros ->.
Qed.

Lemma apply_op_status (o : sink_op) (st : responseWriter * World) :
  is_WriteHeader o = false ->
  Status (fst st) = StatusOK -> Status (fst (apply_op st o)) = StatusOK.
Proof.
  destruct st as [rw wd]. destruct o as [f|b|code|]; simpl;
    try discriminate; intros _ Hs.
  - exact Hs.
  - unfold Write, WriteHeader. simpl. destruct (rw_written rw); simpl;
      match goal with
      | |- context [d_Write ?d ?b ?w] =>
          destruct (d_Write d b w) as [res wd']
      end; simpl; auto.
  - destruct (d_Hijack (rw_dest rw)) as [hj|]; simpl; [|exact Hs].
    destruct (hj wd); exact Hs.
Qed.

Lemma run_ops_status (ops : list sink_op) (st : responseWriter * World) :
  forallb (fun o => negb (is_WriteHeader o)) ops = true ->
  Status (fst st) = StatusOK -> Status (fst (run_ops ops st)) = StatusOK.
Proof.
  revert st. induction ops as [|o ops IH]; intros st Hops Hs; simpl.
  - exact Hs.
  - simpl in Hops. apply andb_prop in Hops as [Ho Hops].
    apply IH; [exact Hops|]. apply apply_op_status; [|exact Hs].
    now destruct (is_WriteHeader o).
Qed.

Lemma run_ops_before_uncommitted (ops : list sink_op)
      (st : responseWriter * World) :
  forallb is_Before ops = true ->
  Written (fst st) = false -> Written (fst (run_ops ops st)) = false.
Proof.
  revert st. induction ops as [|o ops IH]; intros st Hops Hw; simpl.
  - exact Hw.
  - simpl in Hops. apply andb_prop in Hops as [Ho Hops].
    apply IH; [exact Hops|]. destruct o; try discriminate. exact Hw.
Qed.

(** C4.  Two writes add the byte counts they forwarded to [size()], which
    is [n + m] on a fresh sink whose destination takes every byte;
    [status()] is the default 200 until [setStatus] is called, whatever
    else is done with the sink, and a first [setStatus] before any write
    is recorded; on a committed sink (after a write or a [setStatus])
    [setStatus] changes neither the sink nor the world behind it. *)
Theorem sink_size_and_status (d : Destination) :
  (forall (st : responseWriter * World) b1 b2,
      let r1 := Write b1 st in
      let r2 := Write b2 (snd r1) in
      Size (fst (snd r2)) = Size (fst st) + fst (fst r1) + fst (fst r2)) /\
  (accepts_all d ->
   forall wd b1 b2,
     Size (fst (snd (Write b2 (snd (Write b1 (NewResponseWriter d, wd))))))
     = List.length b1 + List.length b2) /\
  (forall ops wd,
      forallb (fun o => negb (is_WriteHeader o)) ops = true ->
      Status (fst (run_ops ops (NewResponseWriter d, wd))) = StatusOK) /\
  (forall ops wd code,
      forallb is_Before ops = true ->
      Status (fst (WriteHeader code (run_ops ops (NewResponseWriter d, wd))))
      = code) /\
  (forall (st : responseWriter * World) code,
      Written (fst st) = true -> WriteHeader code st = st) /\
  (forall (st : responseWriter * World) c1 c2,
      WriteHeader c2 (WriteHeader c1 st) = WriteHeader c1 st) /\
  (forall (st : responseWriter * World) b code,
      WriteHeader code (snd (Write b st)) = snd (Write b st)).
Proof.
  repeat split.
  - intros st b1 b2 r1 r2. subst r1 r2. now rewrite !Write_size.
  - intros Hd wd b1 b2. rewrite !Write_size.
    rewrite !Write_count; [reflexivity|rewrite Write_dest|]; exact Hd.
  - intros ops wd Hops. now apply run_ops_status.
  - intros ops wd code Hops.
    pose proof (run_ops_before_uncommitted ops (NewResponseWriter d, wd)
                  Hops eq_refl) as Hw.
    destruct (run_ops ops (NewResponseWriter d, wd)) as [rw wd'].
    unfold Written in Hw. simpl in Hw. unfold WriteHeader. rewrite Hw.
    reflexivity.
  - intros st code. apply WriteHeader_inert.
  - intros st c1 c2. apply WriteHeader_inert, WriteHeader_written.
  - intros st b code. apply WriteHeader_inert, Write_written.
Qed.
Lemma fold_Before (fs : list (hook World)) (rw : responseWriter) :
  fold_left (fun rw f => Before f rw) fs rw
  = mkResponseWriter (rw_dest rw) (rw_status rw) (rw_size rw) (rw_written rw)
                     (rw_beforeFuncs rw ++ fs).
Proof.
  revert rw. induction fs as [|f fs IH]; intros rw; simpl.
  - rewrite app_nil_r. now destruct rw.
  - rewrite IH. simpl. now rewrite <- app_assoc.
Qed.

(** C5.  On a fresh sink with the hooks [fs] registered in that order, the
    commit, by [setStatus] or by the first write, applies the hooks to the
    world last-registered first, each once, and only then hands the header
    (and the bytes) to the destination; on a committed sink neither a write
    nor a [setStatus] runs any hook again. *)
Theorem hooks_reverse_once (d : Destination) (fs : list (hook World))
        (wd : World) :
  let rw := fold_left (fun rw f => Before f rw) fs (NewResponseWriter d) in
  let hooks_then code :=
    fold_left (fun wd f => f (mkSnapshot code 0 true) wd) (rev fs) wd in
  (forall code,
      WriteHeader code (rw, wd)
      = (mkResponseWriter d code 0 true fs,
         d_WriteHeader d code (hooks_then code))) /\
  (forall b,
      snd (snd (Write b (rw, wd)))
      = snd (d_Write d b (d_WriteHeader d StatusOK (hooks_then StatusOK)))) /\
  (forall (st : responseWriter * World),
      Written (fst st) = true ->
      (forall code, WriteHeader code st = st) /\
      (forall b, snd (snd (Write b st))
                 = snd (d_Write (rw_dest (fst st)) b (snd st)))) /\
  (forall code, Written (fst (WriteHeader code (rw, wd))) = true) /\
  (forall b, Written (fst (snd (Write b (rw, wd)))) = true).
Proof.
  intros rw hooks_then. subst rw hooks_then. rewrite fold_Before. simpl.
  split; [reflexivity|]. split; [|split; [|split]].
  - intros b. unfold Write, WriteHeader, callBefore, observe. simpl.
    match goal with
    | |- context [d_Write ?d ?b ?w] => destruct (d_Write d b w) as [res wd']
    end. reflexivity.
  - intros [rw wd0] Hw. unfold Written in Hw. simpl in Hw. split.
    + intros code. now apply WriteHeader_inert.
    + intros b. unfold Write. simpl. rewrite Hw.
      destruct (d_Write (rw_dest rw) b wd0) as [res wd']. reflexivity.
  - reflexivity.
  - intros b. apply Write_written.
Qed.

(** C7.  Through the sink, the raw-connection takeover of a destination
    without that capability returns the capability-unsupported error and
    leaves the sink and the world as they were; with the capability the
    sink returns what the destination's own takeover returns. *)
Theorem hijack_capability (st : responseWriter * World) :
  (d_Hijack (rw_dest (fst st)) = None ->
   Hijack st = (inl ErrCapabilityUnsupported, st)) /\
  (forall hijack,
      d_Hijack (rw_dest (fst st)) = Some hijack ->
      Hijack st = (fst (hijack (snd st)), (fst st, snd (hijack (snd st))))).
Proof.
  destruct st as [rw wd]. unfold Hijack. simpl. split.
  - now intros ->.
  - intros hijack ->. now destruct (hijack wd).
Qed.
End SinkFacts.

(** [TestResponseWriterWritingStrings]: 11 and 15 bytes give size 26 and
    status 200; a later [WriteHeader] changes nothing. *)
Lemma sink_size_and_status_witness :
  let hello := String.list_byte_of_string "Hello world" in
  let foo := String.list_byte_of_string "foo bar bat baz" in
  let st := snd (Write foo (snd (Write hello
                  (NewResponseWriter recorderDest, NewRecorder)))) in
  accepts_all recorderDest /\
  Size (fst st) = 26 /\ Status (fst st) = StatusOK /\ Code (snd st) = 200%Z /\
  Written (fst st) = true /\ WriteHeader 404 st = st.
Proof.
  pose proof (sink_size_and_status recorderDest)
    as (_ & Hsize & _ & _ & Hinert & _).
  assert (Hd : accepts_all recorderDest) by (intros b wd; reflexivity).
  split; [exact Hd|].
  split; [exact (Hsize Hd NewRecorder _ _)|].
  split; [reflexivity|]. split; [reflexivity|]. split; [reflexivity|].
  apply Hinert. reflexivity.
Defined.

(** [TestResponseWriterBefore]: hooks foo then bar are registered; the
    commit runs bar, then foo, then sends the header; the write that
    follows runs no hook. *)
Lemma hooks_reverse_once_witness :
  let rw := Before (namedHook "bar")
              (Before (namedHook "foo") (NewResponseWriter recorderDest)) in
  let st := WriteHeader 404 (rw, NewRecorder) in
  let hi := String.list_byte_of_string "hi" in
  Written (fst st) = true /\
  events (snd st) = [EvHook "bar"; EvHook "foo"; EvHeader 404] /\
  events (snd (snd (Write hi st)))
  = [EvHook "bar"; EvHook "foo"; EvHeader 404; EvBytes hi] /\
  WriteHeader 200 st = st.
Proof.
  pose proof (hooks_reverse_once recorderDest
                [namedHook "foo"; namedHook "bar"] NewRecorder)
    as (Hcommit & _ & Hlater & _).
  cbv zeta in Hcommit. simpl fold_left in Hcommit.
  split; [reflexivity|].
  split; [now rewrite (Hcommit 404%Z)|].
  split; [reflexivity|].
  refine (proj1 (Hlater (WriteHeader 404 (_, NewRecorder)) _) 200%Z).
  reflexivity.
Defined.

(** [TestResponseWriteHijackNotOK] and [TestResponseWriterHijack]: the
    recorder cannot be hijacked; [hijackableResponse] can, and its flag is
    set. *)
Lemma hijack_capability_witness :
  d_Hijack recorderDest = None /\
  Hijack (NewResponseWriter recorderDest, NewRecorder)
  = (inl ErrCapabilityUnsupported,
     (NewResponseWriter recorderDest, NewRecorder)) /\
  snd (snd (Hijack (NewResponseWriter hijackableResponse, false))) = true.
Proof.
  split; [reflexivity|]. split.
  - exact (proj1 (hijack_capability
                    (NewResponseWriter recorderDest, NewRecorder)) eq_refl).
  - now rewrite (proj2 (hijack_capability
                          (NewResponseWriter hijackableResponse, false))
                   _ eq_refl).
Defined.

(** ** The graceful observer *)

Section ObserverFacts.
Variable srv : Server.

Lemma observer_run_app (a b : list observer_event) (w : observer_world) :
  observer_run srv (a ++ b) w = observer_run srv b (observer_run srv a w).
Proof. apply fold_left_app. Qed.

(** Once the goroutine has returned, nothing adds a stop call. *)
Lemma exited_step (w : observer_world) (e : observer_event) :
  goroutine w = Exited ->
  goroutine (observer_step srv w e) = Exited /\
  stop_calls (observer_step srv w e) = stop_calls w.
Proof.
  intros Hg. destruct e; simpl; rewrite Hg; simpl; auto.
Qed.

Lemma exited_run (evs : list observer_event) (w : observer_world) :
  goroutine w = Exited ->
  goroutine (observer_run srv evs w) = Exited /\
  stop_calls (observer_run srv evs w) = stop_calls w.
Proof.
  revert w. induction evs as [|e evs IH]; intros w Hg; simpl.
  - auto.
  - destruct (exited_step w e Hg) as [Hg' Hc'].
    destruct (IH _ Hg') as [Hg'' Hc'']. split; congruence.
Qed.

Lemma at_most_one_step (w : observer_world) (e : observer_event) :
  at_most_one_stop srv w -> at_most_one_stop srv (observer_step srv w e).
Proof.
  unfold at_most_one_stop.
  destruct w as [cd sc g calls], e as [| |pick]; simpl;
    destruct g; simpl; auto.
  - intros ->. auto.
  - unfold select_ready. simpl.
    destruct cd, sc; simpl; try destruct pick; simpl; intros ->; auto.
Qed.

Lemma at_most_one_run (evs : list observer_event) (w : observer_world) :
  at_most_one_stop srv w -> at_most_one_stop srv (observer_run srv evs w).
Proof.
  revert w. induction evs as [|e evs IH]; intros w Hw; simpl.
  - exact Hw.
  - apply IH, at_most_one_step, Hw.
Qed.

Lemma ctx_first_run (a : list observer_event) (w : observer_world) :
  ~ In EvStopChan a -> ctx_phase srv a w ->
  goroutine (observer_run srv a w) = Exited /\
  stop_calls (observer_run srv a w) = [Timeout srv].
Proof.
  revert w. induction a as [|e a IH]; intros w Hns [Hsc Hph].
  - simpl. destruct (goroutine w) eqn:Hg.
    + destruct Hph as (_ & _ & [pick []]).
    + destruct Hph as (_ & []).
    + auto.
  - simpl. apply IH; [intros Hin; apply Hns; now right|].
    destruct w as [cd sc g calls]. simpl in *. subst sc.
    destruct e as [| |pick]; [| exfalso; apply Hns; now left |].
    + destruct g; simpl; unfold ctx_phase; simpl.
      * destruct Hph as (Hc & _ & [pick [Hp|Hp]]); [discriminate|].
        subst calls. eauto 6.
      * destruct Hph as (-> & _). auto.
      * auto.
    + destruct g; simpl; unfold ctx_phase; simpl.
      * destruct Hph as (-> & Hcd & [pick' [Hp|Hp]]).
        -- unfold select_ready. simpl.
           destruct cd; simpl; [auto|].
           destruct Hcd as [Hcd|[Hcd|Hcd]]; try discriminate. auto.
        -- unfold select_ready. simpl.
           destruct cd; simpl; [auto|].
           destruct Hcd as [Hcd|[Hcd|Hcd]]; try discriminate. auto.
      * destruct Hph as (-> & [Hc|Hc]); [discriminate|]. auto.
      * auto.
Qed.

Lemma stop_first_run (a : list observer_event) (w : observer_world) :
  ~ In EvCancel a -> stop_phase a w ->
  goroutine (observer_run srv a w) = Exited /\
  stop_calls (observer_run srv a w) = [].
Proof.
  revert w. induction a as [|e a IH]; intros w Hns [Hcd Hph].
  - simpl. destruct (goroutine w) eqn:Hg.
    + destruct Hph as (_ & _ & [pick []]).
    + destruct Hph as (_ & []).
    + auto.
  - simpl. apply IH; [intros Hin; apply Hns; now right|].
    destruct w as [cd sc g calls]. simpl in *. subst cd.
    destruct e as [| |pick]; [exfalso; apply Hns; now left | |].
    + destruct g; simpl; unfold stop_phase; simpl.
      * destruct Hph as (Hc & _ & [pick [Hp|Hp]]); [discriminate|].
        subst calls. eauto 6.
      * destruct Hph as (-> & _). auto.
      * auto.
    + destruct g; simpl; unfold stop_phase; simpl.
      * destruct Hph as (-> & Hsc & [pick' [Hp|Hp]]).
        -- unfold select_ready. simpl.
           destruct sc; simpl; [auto|].
           destruct Hsc as [Hsc|[Hsc|Hsc]]; try discriminate. auto.
        -- unfold select_ready. simpl.
           destruct sc; simpl; [auto|].
           destruct Hsc as [Hsc|[Hsc|Hsc]]; try discriminate. auto.
      * destruct Hph as (-> & [Hc|Hc]); [discriminate|]. auto.
      * auto.
Qed.

(** C8, amended.  Started by [ObserveContext], the observer never makes
    more than one stop call, and only with the server's grace period.  If
    the root context is cancelled, and the observer has reached its
    [select], before the stop channel fires, it makes exactly one call,
    whatever happens afterwards; if the stop channel fires, and the observer
    has reached its [select], before the context is cancelled, it returns
    having made no call, whatever happens afterwards. *)
Theorem observer_stops_once (a b : list observer_event) :
  let final := observer_run srv (a ++ b) ObserveContext in
  (stop_calls final = [] \/ stop_calls final = [Timeout srv]) /\
  (In EvCancel a -> (exists pick, In (EvObserver pick) a) ->
   ~ In EvStopChan a ->
   goroutine final = Exited /\ stop_calls final = [Timeout srv]) /\
  (In EvStopChan a -> (exists pick, In (EvObserver pick) a) ->
   ~ In EvCancel a ->
   goroutine final = Exited /\ stop_calls final = []).
Proof.
  intros final. subst final. split; [|split].
  - pose proof (@at_most_one_run (a ++ b) ObserveContext eq_refl) as Hw.
    unfold at_most_one_stop in Hw.
    destruct (goroutine (observer_run srv (a ++ b) ObserveContext)); auto.
  - intros Hc Ho Hn. rewrite observer_run_app.
    destruct (@ctx_first_run a ObserveContext Hn) as [Hg Hs].
    { split; [reflexivity|]. simpl. auto. }
    destruct (@exited_run b _ Hg) as [Hg' Hs']. split; congruence.
  - intros Hc Ho Hn. rewrite observer_run_app.
    destruct (@stop_first_run a ObserveContext Hn) as [Hg Hs].
    { split; [reflexivity|]. simpl. auto. }
    destruct (@exited_run b _ Hg) as [Hg' Hs']. split; congruence.
Qed.
End ObserverFacts.

(** The observer parks, the context is cancelled, then the stop channel
    fires: one stop call with the grace period.  The observer parks and the
    stop channel fires first: no call. *)
Lemma observer_stops_once_witness :
  let srv := mkServer 10 in
  let a := [EvObserver CaseStopChan; EvCancel] in
  let b := [EvStopChan; EvObserver CaseCtxDone; EvCancel] in
  In EvCancel a /\ (exists pick, In (EvObserver pick) a) /\
  ~ In EvStopChan a /\
  goroutine (observer_run srv (a ++ b) ObserveContext) = Exited /\
  stop_calls (observer_run srv (a ++ b) ObserveContext) = [10%Z].
Proof.
  assert (Hc : In EvCancel [EvObserver CaseStopChan; EvCancel])
    by (right; left; reflexivity).
  assert (Ho : exists pick,
             In (EvObserver pick) [EvObserver CaseStopChan; EvCancel])
    by (exists CaseStopChan; left; reflexivity).
  assert (Hn : ~ In EvStopChan [EvObserver CaseStopChan; EvCancel])
    by (intros [H|[H|[]]]; discriminate H).
  split; [exact Hc|]. split; [exact Ho|]. split; [exact Hn|].
  exact (proj1 (proj2 (observer_stops_once (mkServer 10)
                         [EvObserver CaseStopChan; EvCancel]
                         [EvStopChan; EvObserver CaseCtxDone; EvCancel]))
           Hc Ho Hn).
Defined.

(** C8 as stated fails: the root context is cancelled, then the stop
    channel fires, and only then does the goroutine reach its [select]; both
    cases are ready, Go picks the stop-channel case, and the observer
    returns without a stop call although the context was cancelled first.
    With the two signals in the other order and the other pick, it makes a
    stop call although the stop channel fired first. *)
Lemma observer_race_counterexample :
  ~ (forall (srv : Server) (pre post : list observer_event),
        ~ In EvStopChan pre ->
        (exists pick, In (EvObserver pick) (pre ++ EvCancel :: post)) ->
        stop_calls (observer_run srv (pre ++ EvCancel :: post) ObserveContext)
        = [Timeout srv]) /\
  ~ (forall (srv : Server) (pre post : list observer_event),
        ~ In EvCancel pre ->
        (exists pick, In (EvObserver pick) (pre ++ EvStopChan :: post)) ->
        stop_calls (observer_run srv (pre ++ EvStopChan :: post)
                                 ObserveContext)
        = []).
Proof.
  split; intros H.
  - specialize (H (mkServer 10) [] [EvStopChan; EvObserver CaseStopChan]).
    simpl in H. discriminate H.
    + intros [].
    + exists CaseStopChan. right; right; left; reflexivity.
  - specialize (H (mkServer 10) [] [EvCancel; EvObserver CaseCtxDone]).
    simpl in H. discriminate H.
    + intros [].
    + exists CaseCtxDone. right; right; left; reflexivity.
Qed.

(** ** Worked runs *)

(** [TestVermouthServeHTTP], through [Use] and the dispatcher: three
    interceptors registered under the wildcard pattern, a nil request. *)
Example TestVermouthServeHTTP_log :
  match (Use "" (MwHandler (wrapping "foo" "ban")) ;;
         Use "" (MwHandler (wrapping "bar" "baz")) ;;
         Use "" (MwContextFunc (terminal "bat")))
          (mkVermouth tt tt []) with
  | Done _ vm =>
      Vermouth_ServeHTTP (fun _ : unit => unreachableRouter) (fun w => w)
                         vm tt None []
  | Panic p => Panic p
  end
  = Done tt ["foo"; "bar"; "bat"; "baz"; "ban"].
Proof. reflexivity. Qed.

(** A middleware scoped to ["/api"] is skipped for ["/apikey"] and the rest
    of the chain, router included, still runs; for ["/api/x"] it runs. *)
Example scoped_chain_log :
  match (Use "/api" (MwHandler (wrapping "api-in" "api-out")) ;;
         Use "/" (MwHandler (wrapping "all-in" "all-out")))
          (mkVermouth tt tt []) with
  | Done _ vm =>
      let serve := Vermouth_HandlerFunc
                     (fun _ : unit => fun _ _ _ => emit "router") vm
                     tt tt tt in
      serve (Some (mkRequest (Some (mkURL "/apikey")))) []
      = Done tt ["all-in"; "router"; "all-out"] /\
      serve (Some (mkRequest (Some (mkURL "/api/x")))) []
      = Done tt ["api-in"; "all-in"; "router"; "all-out"; "api-out"]
  | Panic _ => False
  end.
Proof. split; reflexivity. Qed.

(** A chain whose sentinel is served directly returns without touching the
    world; the zero node behind it panics if it is served. *)
Example sentinel_log :
  ServeHTTP (build ([] : list (Handler unit unit (list string)))) tt tt None
            ["x"]
  = Done tt ["x"] /\
  ServeHTTP (zeroMiddleware : middleware unit unit (list string)) tt tt None
            ["x"]
  = Panic NilDereference.
Proof. split; reflexivity. Qed.

(** When both channels have fired before the goroutine reaches its
    [select], the case is Go's pick: one call or none. *)
Example observer_both_ready (srv : Server) (pick : select_case) :
  stop_calls (observer_run srv [EvCancel; EvStopChan; EvObserver pick]
                           ObserveContext)
  = match pick with
    | CaseCtxDone => [Timeout srv]
    | CaseStopChan => []
    end.
Proof. destruct pick; reflexivity. Qed.

(* ================================================================= *)
(** * Part III.  Further properties of the code *)
(* ================================================================= *)

(** ** Registration sequences *)

Section DispatcherFacts.
Context {Ctx RW St Router : Type}.
Variable Router_Handle :
  string -> string -> ContextHandlerFunc Ctx RW St -> Router -> Router.
Variable Router_ServeHTTP : Router -> ContextHandlerFunc Ctx RW St.
#[local] Abbreviation Handler := (Handler Ctx RW St).
#[local] Abbreviation ContextHandlerFunc := (ContextHandlerFunc Ctx RW St).
#[local] Abbreviation Vermouth := (Vermouth Ctx RW St Router).
#[local] Abbreviation MiddlewareType := (MiddlewareType Ctx RW St).
#[local] Abbreviation HandlerType := (HandlerType Ctx RW St).

Lemma UseAll_cons (reg : string * MiddlewareType)
      (regs : list (string * MiddlewareType)) (vm : Vermouth) :
  UseAll (reg :: regs) vm
  = match Use (fst reg) (snd reg) vm with
    | Done _ vm' => UseAll regs vm'
    | Panic p => Panic p
    end.
Proof. reflexivity. Qed.

(** A supported middleware is stored behind its scope wrapper at the end of
    the stack. *)
Lemma Use_supported (pattern : string) (mw : MiddlewareType) (vm : Vermouth) :
  supported_middleware mw ->
  exists m : Handler,
    wrapMiddlewareFunc mw tt = Done m tt /\
    Use pattern mw vm
    = Done tt (mkVermouth (vm_ctx vm) (vm_router vm)
                 (vm_handlers vm ++ [makeRoutingHandler pattern m])).
Proof.
  destruct mw as [m|m|m|t]; intros Hs; try (eexists; split; reflexivity).
  destruct Hs.
Qed.

(** X1.  A run of [Use] calls with supported middlewares never panics,
    leaves the root context and the router alone, keeps the handlers already
    on the stack and appends one scope-wrapped handler per call, in call
    order; a run that meets an unsupported value after supported ones
    panics naming that value's type. *)
Theorem UseAll_appends_in_order (regs : list (string * MiddlewareType))
        (vm : Vermouth) :
  (Forall (fun reg => supported_middleware (snd reg)) regs ->
   exists hs : list Handler,
     UseAll regs vm
     = Done tt (mkVermouth (vm_ctx vm) (vm_router vm) (Middlewares vm ++ hs))
     /\ Forall2 (fun reg h =>
                   exists m : Handler,
                     wrapMiddlewareFunc (snd reg) tt = Done m tt /\
                     h = makeRoutingHandler (fst reg) m) regs hs) /\
  (forall pre p t post,
      regs = pre ++ (p, MwOther t) :: post ->
      Forall (fun reg => supported_middleware (snd reg)) pre ->
      UseAll regs vm
      = Panic (PanicString ("Unknown middleware type: " ++ t))).
Proof.
  split.
  - revert vm. induction regs as [|[p mw] regs IH]; intros vm Hs.
    + exists []. split; [|constructor].
      unfold Middlewares. rewrite app_nil_r. now destruct vm.
    + inversion Hs as [|? ? Hmw Hrest]; subst.
      destruct (@Use_supported p mw vm Hmw) as (m & Hm & Hu).
      rewrite UseAll_cons. simpl fst. simpl snd. rewrite Hu.
      destruct (IH (mkVermouth (vm_ctx vm) (vm_router vm)
                     (vm_handlers vm ++ [makeRoutingHandler p m])) Hrest)
        as (hs & Hrun & Hall).
      exists (makeRoutingHandler p m :: hs). split.
      * rewrite Hrun. unfold Middlewares. simpl.
        now rewrite <- app_assoc.
      * constructor; [exists m; auto|exact Hall].
  - intros pre p t post -> Hpre. revert vm.
    induction pre as [|[p0 mw0] pre IH]; intros vm.
    + reflexivity.
    + inversion Hpre as [|? ? Hmw Hrest]; subst.
      destruct (@Use_supported p0 mw0 vm Hmw) as (m & _ & Hu).
      change (((p0, mw0) :: pre) ++ (p, MwOther t) :: post)
        with ((p0, mw0) :: (pre ++ (p, MwOther t) :: post)).
      rewrite UseAll_cons. simpl fst. simpl snd. rewrite Hu.
      now apply IH.
Qed.

(** X2.  Registering a middleware and registering a route commute, unless
    both values are unsupported (then each order panics on its first
    call): routes never move ahead of middlewares. *)
Theorem Use_Handle_commute (pattern : string) (mw : MiddlewareType)
        (method route : string) (handler : HandlerType) (vm : Vermouth) :
  supported_middleware mw \/ supported_handler handler ->
  (Use pattern mw ;; Handle Router_Handle method route handler) vm
  = (Handle Router_Handle method route handler ;; Use pattern mw) vm.
Proof.
  intros [Hs|Hs];
    destruct mw as [m|m|m|t], handler as [h|h|h|h|t'];
    try reflexivity; destruct Hs.
Qed.

(** X4.  A dispatcher without middleware serves a request exactly as its
    router does: the handler [HandlerFunc] returns runs the router, as it
    is when the request arrives, on the root context set at that time, and
    [ServeHTTP] runs the router on the dispatcher's root context and the
    wrapped response writer; the router adapter's trailing call of [next]
    reaches the void sentinel and does nothing. *)
Theorem empty_dispatcher_is_router (vm : Vermouth)
        (newResponseWriter : RW -> RW) :
  vm_handlers vm = [] ->
  (forall ctx_now router_now,
      Vermouth_HandlerFunc Router_ServeHTTP vm ctx_now router_now
      = Router_ServeHTTP router_now ctx_now) /\
  forall w r,
    Vermouth_ServeHTTP Router_ServeHTTP newResponseWriter vm w r
    = Router_ServeHTTP (vm_router vm) (vm_ctx vm) (newResponseWriter w) r.
Proof.
  intros Hh. unfold Vermouth_HandlerFunc, Vermouth_ServeHTTP.
  rewrite Hh. simpl app. split.
  - intros ctx_now router_now. extensionality w. extensionality r.
    rewrite ServeHTTP_cons. unfold wrapHandler, HandlerFunc.
    simpl build. rewrite ServeHTTP_void. apply bind_ret_r.
  - intros w r. rewrite ServeHTTP_cons. unfold wrapHandler, HandlerFunc.
    simpl build. rewrite ServeHTTP_void. apply bind_ret_r.
Qed.
End DispatcherFacts.

(** ** Scopes along the chain *)

Section ScopeFacts.
Context {Ctx RW St : Type}.
#[local] Abbreviation Handler := (Handler Ctx RW St).
#[local] Abbreviation ContextHandlerFunc := (ContextHandlerFunc Ctx RW St).
Local Open Scope string_scope.

(** On a non-nil request the wrapper runs the middleware when the scope
    test succeeds and calls [next] otherwise. *)
Lemma makeRoutingHandler_some (pattern : string) (handler : Handler) ctx w
      (req : Request) (u : URL_t) (next : ContextHandlerFunc) :
  URL req = Some u ->
  makeRoutingHandler pattern handler ctx w (Some req) next
  = if scope_matches pattern (Path u)
    then handler ctx w (Some req) next
    else next ctx w (Some req).
Proof.
  intros Hu. unfold makeRoutingHandler, HandlerFunc, scope_matches.
  rewrite Hu. destruct (isWildcard pattern); reflexivity.
Qed.

Lemma prefix_trans (a b c : string) :
  String.prefix a b = true -> String.prefix b c = true ->
  String.prefix a c = true.
Proof.
  revert b c. induction a as [|x a IH]; intros b c Hab Hbc.
  - destruct c; reflexivity.
  - destruct b as [|y b]; [discriminate|].
    destruct c as [|z c]; [discriminate|].
    cbn [String.prefix] in *.
    destruct (ascii_dec x y) as [->|]; [|discriminate].
    destruct (ascii_dec y z) as [->|]; [|discriminate].
    eauto.
Qed.

(** X5.  For a non-nil request that carries a URL, the chain of
    scope-wrapped middlewares runs as the chain of exactly those
    middlewares whose scope the request path matches, in registration
    order, provided the matching ones hand on the request they received;
    the others are never run. *)
Theorem scoped_chain_is_filter (phs : list (string * Handler))
        (tl : list Handler) (req : Request) (u : URL_t) :
  URL req = Some u ->
  Forall (fun ph => scope_matches (fst ph) (Path u) = true ->
                    forwards_request (snd ph)) phs ->
  forall ctx w,
    ServeHTTP (build (map scoped phs ++ tl)%list) ctx w (Some req)
    = ServeHTTP
        (build (map snd
                    (filter (fun ph => scope_matches (fst ph) (Path u)) phs)
                  ++ tl)%list) ctx w (Some req).
Proof.
  intros Hu.
  induction 1 as [|[p h] phs Hh _ IH]; intros ctx w.
  - reflexivity.
  - simpl map. simpl app. rewrite ServeHTTP_cons.
    unfold scoped at 1. simpl fst. simpl snd.
    rewrite (makeRoutingHandler_some _ _ _ _ _ _ Hu). simpl filter.
    simpl in Hh.
    destruct (scope_matches p (Path u)).
    + simpl map. simpl app. rewrite ServeHTTP_cons.
      apply (Hh eq_refl). exact IH.
    + apply IH.
Qed.

(** X6.  Scopes nest: when the captured pattern of an outer scope is a
    prefix of the captured pattern of an inner, non-wildcard scope, every
    path the inner scope matches is matched by the outer one. *)
Theorem nested_scopes (inner outer path : string) :
  isWildcard inner = false ->
  HasPrefix (normalizePattern inner) (normalizePattern outer) = true ->
  scope_matches inner path = true ->
  scope_matches outer path = true.
Proof.
  unfold scope_matches, HasPrefix. intros -> Hio. simpl. intros Hin.
  rewrite (prefix_trans _ _ _ Hio Hin). apply orb_true_r.
Qed.


End ScopeFacts.

(** ** Composition and panics along the chain *)

Section NestingFacts.
Context {Ctx RW St Router : Type}.
Variable Router_ServeHTTP : Router -> ContextHandlerFunc Ctx RW St.
#[local] Abbreviation Handler := (Handler Ctx RW St).
#[local] Abbreviation ContextHandlerFunc := (ContextHandlerFunc Ctx RW St).
#[local] Abbreviation Vermouth := (Vermouth Ctx RW St Router).

(** X8.  An interceptor that only calls [next] on what it received can be
    inserted anywhere in a chain, or removed from it, without changing any
    run. *)
Theorem yielding_interceptor_is_neutral (h : Handler)
        (pre post : list Handler) :
  (forall ctx w r (next : ContextHandlerFunc),
      h ctx w r next = next ctx w r) ->
  ServeHTTP (build (pre ++ h :: post)) = ServeHTTP (build (pre ++ post)).
Proof.
  intros Hh. apply ServeHTTP_prefix_congr.
  extensionality ctx. extensionality w. extensionality r.
  rewrite ServeHTTP_cons. apply Hh.
Qed.


Lemma UseAll_wildcard_handlers (phs : list (string * Handler)) (vm : Vermouth) :
  UseAll (map (fun ph => (fst ph, MwHandler (snd ph))) phs) vm
  = Done tt (mkVermouth (vm_ctx vm) (vm_router vm)
               (vm_handlers vm ++ map scoped phs)).
Proof.
  revert vm. induction phs as [|[p h] phs IH]; intros vm.
  - simpl. rewrite app_nil_r. now destruct vm.
  - simpl map. unfold UseAll in *. simpl seqM. unfold bind at 1. simpl.
    rewrite IH. simpl. now rewrite <- app_assoc.
Qed.

Lemma wildcard_scoped ctx w r (ph : string * Handler)
      (ba : M St unit * M St unit) :
  isWildcard (fst ph) = true ->
  calls_next_once ctx w r (snd ph) ba ->
  calls_next_once ctx w r (scoped ph) ba.
Proof.
  intros Hw Hc next. rewrite <- Hc.
  unfold scoped, makeRoutingHandler, HandlerFunc. rewrite Hw.
  now destruct r.
Qed.

(** X10.  Middlewares of the form [before; next; after], registered with
    [Use] under wildcard patterns on a dispatcher with an empty stack,
    serve a request as: the befores in registration order, the router, the
    afters in reverse order.  The handler [HandlerFunc] returns runs them
    on the root context set when the request arrives and on the router as
    it is then; [ServeHTTP] runs them on the dispatcher's root context and
    the wrapped response writer. *)
Theorem dispatcher_call_stack (vm : Vermouth)
        (phs : list (string * Handler))
        (bas : list (M St unit * M St unit)) ctx w r :
  vm_handlers vm = [] ->
  Forall (fun ph => isWildcard (fst ph) = true) phs ->
  Forall2 (fun ph ba => calls_next_once ctx w r (snd ph) ba) phs bas ->
  exists vm',
    UseAll (map (fun ph => (fst ph, MwHandler (snd ph))) phs) vm
    = Done tt vm' /\
    (forall router_now,
        Vermouth_HandlerFunc Router_ServeHTTP vm' ctx router_now w r
        = (seqM (map fst bas) ;;
           Router_ServeHTTP router_now ctx w r ;;
           seqM (rev (map snd bas)))) /\
    (forall (newResponseWriter : RW -> RW) w0,
        vm_ctx vm = ctx -> newResponseWriter w0 = w ->
        Vermouth_ServeHTTP Router_ServeHTTP newResponseWriter vm' w0 r
        = (seqM (map fst bas) ;;
           Router_ServeHTTP (vm_router vm) ctx w r ;;
           seqM (rev (map snd bas)))).
Proof.
  intros Hh Hw Hc. eexists. split; [apply UseAll_wildcard_handlers|].
  assert (Hs : Forall2 (calls_next_once ctx w r) (map scoped phs) bas).
  { clear Hh. induction Hc as [|ph ba phs bas Hpb _ IH]; simpl.
    - constructor.
    - inversion Hw; subst. constructor; [now apply wildcard_scoped|auto]. }
  split.
  - intros router_now. unfold Vermouth_HandlerFunc. simpl.
    rewrite Hh. simpl app. rewrite (nesting_around _ Hs).
    rewrite ServeHTTP_cons. unfold wrapHandler, HandlerFunc.
    simpl build. rewrite ServeHTTP_void, bind_ret_r. reflexivity.
  - intros newResponseWriter w0 Hctx Hnw. unfold Vermouth_ServeHTTP. simpl.
    rewrite Hh, Hctx, Hnw. simpl app. rewrite (nesting_around _ Hs).
    rewrite ServeHTTP_cons. unfold wrapHandler, HandlerFunc.
    simpl build. rewrite ServeHTTP_void, bind_ret_r. reflexivity.
Qed.

(** X11.  The adapter for a plain [net/http] middleware binds the [next]
    it hands over to the context it received: whatever the middleware
    does, the rest of the chain is entered only on that context. *)
Theorem plain_middleware_keeps_context
        (m : RW -> option Request ->
             (RW -> option Request -> M St unit) -> M St unit) :
  exists h : Handler,
    (forall (S : Type) (s : S),
        wrapMiddlewareFunc (MwFunc m) s = Done h s) /\
    forall ctx w r (n1 n2 : ContextHandlerFunc),
      (forall w' r', n1 ctx w' r' = n2 ctx w' r') ->
      h ctx w r n1 = h ctx w r n2.
Proof.
  eexists. split; [intros S s; reflexivity|].
  intros ctx w r n1 n2 Hn. unfold HandlerFunc. f_equal.
  extensionality w'. extensionality r'. apply Hn.
Qed.
End NestingFacts.

(** ** More on the observers *)

Section ObserverMore.
Variable srv : Server.

Lemma quiet_step (w : observer_world) (e : observer_event) :
  e <> EvCancel ->
  ctx_done w = false /\ stop_calls w = [] ->
  ctx_done (observer_step srv w e) = false /\
  stop_calls (observer_step srv w e) = [].
Proof.
  destruct w as [cd sc g calls]. simpl. intros He [-> ->].
  destruct e as [| |pick]; [contradiction| |].
  - destruct g; simpl; auto.
  - destruct g; simpl; auto.
    unfold select_ready. simpl. destruct sc; simpl; auto.
Qed.

Lemma waiting_step (w : observer_world) (e : observer_event) :
  e <> EvCancel -> e <> EvStopChan ->
  ctx_done w = false /\ stop_chan_closed w = false /\
  goroutine w <> Exited ->
  ctx_done (observer_step srv w e) = false /\
  stop_chan_closed (observer_step srv w e) = false /\
  goroutine (observer_step srv w e) <> Exited.
Proof.
  destruct w as [cd sc g calls]. simpl. intros Hc Hs (-> & -> & Hg).
  destruct e as [| |pick]; [contradiction|contradiction|].
  destruct g; simpl; repeat split; auto; discriminate.
Qed.

(** X12.  Whatever the schedule, the observer started by [ObserveContext]
    makes no stop call as long as the root context has not been cancelled,
    and it does not return before one of the two signals has fired. *)
Theorem observer_quiet_without_cancel (sched : list observer_event) :
  (~ In EvCancel sched ->
   stop_calls (observer_run srv sched ObserveContext) = []) /\
  (~ In EvCancel sched -> ~ In EvStopChan sched ->
   goroutine (observer_run srv sched ObserveContext) <> Exited).
Proof.
  split.
  - intros Hn.
    cut (forall w, ctx_done w = false /\ stop_calls w = [] ->
                   stop_calls (observer_run srv sched w) = []).
    { intros Hcut. apply Hcut. split; reflexivity. }
    induction sched as [|e sched IH]; intros w Hw; simpl.
    + apply Hw.
    + apply IH; [intros Hin; apply Hn; now right|].
      apply quiet_step; [|exact Hw]. intros ->. apply Hn. now left.
  - intros Hn Hs.
    cut (forall w, ctx_done w = false /\ stop_chan_closed w = false /\
                   goroutine w <> Exited ->
                   goroutine (observer_run srv sched w) <> Exited).
    { intros Hcut. apply Hcut. repeat split; discriminate. }
    induction sched as [|e sched IH]; intros w Hw; simpl.
    + apply Hw.
    + apply IH;
        [intros Hin; apply Hn; now right
        |intros Hin; apply Hs; now right|].
      apply waiting_step; [| |exact Hw]; intros ->;
        [apply Hn|apply Hs]; now left.
Qed.

Lemma observeContext_exited_run (evs : list observer_event)
      (w : observer_world) :
  goroutine w = Exited ->
  goroutine (observeContext_run srv evs w) = Exited /\
  stop_calls (observeContext_run srv evs w) = stop_calls w.
Proof.
  revert w. induction evs as [|e evs IH]; intros w Hg; simpl.
  - auto.
  - assert (Hstep : goroutine (observeContext_step srv w e) = Exited /\
                    stop_calls (observeContext_step srv w e) = stop_calls w)
      by (destruct e; simpl; rewrite Hg; simpl; auto).
    destruct Hstep as [Hg' Hc'].
    destruct (IH _ Hg') as [Hg'' Hc'']. split; congruence.
Qed.

Lemma observeContext_cancel_run (a : list observer_event)
      (w : observer_world) :
  cancel_phase srv a w ->
  goroutine (observeContext_run srv a w) = Exited /\
  stop_calls (observeContext_run srv a w) = [Timeout srv].
Proof.
  revert w. induction a as [|e a IH]; intros w Hph; unfold cancel_phase in Hph.
  - simpl. destruct (goroutine w) eqn:Hg.
    + destruct Hph as (_ & _ & [pick []]).
    + destruct Hph as (_ & []).
    + auto.
  - simpl. apply IH. unfold cancel_phase.
    destruct w as [cd sc g calls]. simpl in *.
    destruct e as [| |pick]; destruct g; simpl.
    + destruct Hph as (Hc & _ & [pick [Hp|Hp]]); [discriminate|].
      subst calls. eauto 6.
    + destruct Hph as (-> & _). reflexivity.
    + exact Hph.
    + destruct Hph as (Hc & [Hcd|[Hcd|Hcd]] & [pick [Hp|Hp]]);
        try discriminate; eauto 6.
    + destruct Hph as (Hc & [Hcd|Hcd]); [discriminate|]. auto.
    + exact Hph.
    + destruct Hph as (-> & Hcd & [pick' [Hp|Hp]]).
      * destruct cd; simpl; [reflexivity|].
        destruct Hcd as [Hcd|[Hcd|Hcd]]; try discriminate. auto.
      * destruct cd; simpl; [reflexivity|].
        destruct Hcd as [Hcd|[Hcd|Hcd]]; try discriminate. auto.
    + destruct Hph as (-> & [Hc|Hc]); [discriminate|]. auto.
    + exact Hph.
Qed.

Lemma observeContext_quiet_step (w : observer_world) (e : observer_event) :
  e <> EvCancel ->
  ctx_done w = false /\ stop_calls w = [] /\ goroutine w <> Exited ->
  ctx_done (observeContext_step srv w e) = false /\
  stop_calls (observeContext_step srv w e) = [] /\
  goroutine (observeContext_step srv w e) <> Exited.
Proof.
  destruct w as [cd sc g calls]. simpl. intros He (-> & -> & Hg).
  destruct e as [| |pick]; [contradiction| |].
  - simpl. auto.
  - destruct g; simpl; repeat split; auto; discriminate.
Qed.

(** X13.  The earlier [observeContext], whose [select] has the context as
    its only case: once the context is cancelled and the goroutine has been
    scheduled, in either order, it has made exactly one stop call with the
    grace period, even if the server's stop channel fired long before; and
    until the context is cancelled it neither calls stop nor returns,
    whether or not the server has stopped. *)
Theorem observeContext_waits_for_cancel (a b : list observer_event) :
  (In EvCancel a -> (exists pick, In (EvObserver pick) a) ->
   goroutine (observeContext_run srv (a ++ b) ObserveContext) = Exited /\
   stop_calls (observeContext_run srv (a ++ b) ObserveContext)
   = [Timeout srv]) /\
  (~ In EvCancel a ->
   goroutine (observeContext_run srv a ObserveContext) <> Exited /\
   stop_calls (observeContext_run srv a ObserveContext) = []).
Proof.
  split.
  - intros Hc Ho. unfold observeContext_run. rewrite fold_left_app.
    destruct (@observeContext_cancel_run a ObserveContext) as [Hg Hs].
    { unfold cancel_phase. simpl. auto. }
    destruct (@observeContext_exited_run b _ Hg) as [Hg' Hs'].
    unfold observeContext_run in *. split; congruence.
  - intros Hn.
    cut (forall w, ctx_done w = false /\ stop_calls w = [] /\
                   goroutine w <> Exited ->
                   goroutine (observeContext_run srv a w) <> Exited /\
                   stop_calls (observeContext_run srv a w) = []).
    { intros Hcut. apply Hcut. repeat split; discriminate. }
    induction a as [|e a IH]; intros w Hw; simpl.
    + split; apply Hw.
    + apply IH; [intros Hin; apply Hn; now right|].
      apply observeContext_quiet_step; [|exact Hw].
      intros ->. apply Hn. now left.
Qed.
End ObserverMore.

(** ** Server construction *)

Section ServerFacts.
Variables TLS NextProto ConnStateFn Callback Logger HTTPHandler : Type.
#[local] Abbreviation Options :=
  (Options TLS NextProto ConnStateFn Callback Logger).

(** X14.  [NewServer] never hands [Options.ShutdownInitiated] to the
    server: option sets that differ only there build the same server, whose
    callback is nil.  A nil [Options] builds the server of the default
    options, with signal handling off and no timeouts.  Whatever the
    schedule, every stop call the observer of that server makes carries
    [Options.GracefulTimeout]. *)
Theorem NewServer_options (vm : HTTPHandler) (o1 o2 : Options)
        (sched : list observer_event) :
  (same_but_ShutdownInitiated o1 o2 ->
   NewServer vm (Some o1) = NewServer vm (Some o2)) /\
  gs_ShutdownInitiated (NewServer vm (Some o1)) = None /\
  NewServer vm (None : option Options)
  = NewServer vm (Some (defaultOptions TLS NextProto ConnStateFn Callback
                                       Logger)) /\
  gs_NoSignalHandling (NewServer vm (None : option Options)) = true /\
  gs_Timeout (NewServer vm (None : option Options)) = 0%Z /\
  (let calls := stop_calls (observer_run (observed (NewServer vm (Some o1)))
                                         sched ObserveContext) in
   calls = [] \/ calls = [GracefulTimeout o1]).
Proof.
  split; [|repeat split].
  - destruct o1, o2. unfold same_but_ShutdownInitiated. simpl.
    intros (-> & -> & -> & -> & -> & -> & -> & -> & -> & ->). reflexivity.
  - pose proof (@at_most_one_run (observed (NewServer vm (Some o1))) sched
                  ObserveContext eq_refl) as Hw.
    unfold at_most_one_stop in Hw. cbv zeta.
    destruct (goroutine _); auto.
Qed.
End ServerFacts.

(** ** Concrete runs of the further properties *)

(** Two supported registrations on an empty dispatcher. *)
Lemma UseAll_appends_in_order_witness :
  let vm := mkVermouth tt tt ([] : list (Handler unit unit (list string))) in
  let regs := [("/", MwHandler (wrapping "in" "out"));
               ("/api", MwContextFunc (terminal "api"))] in
  Forall (fun reg => supported_middleware (snd reg)) regs /\
  exists hs,
    UseAll regs vm = Done tt (mkVermouth tt tt (Middlewares vm ++ hs)) /\
    Forall2 (fun reg h =>
               exists m, wrapMiddlewareFunc (snd reg) tt = Done m tt /\
                         h = makeRoutingHandler (fst reg) m) regs hs.
Proof.
  assert (Hs : Forall (fun reg : string * MiddlewareType unit unit (list string)
                       => supported_middleware (snd reg))
                 [("/", MwHandler (wrapping "in" "out"));
                  ("/api", MwContextFunc (terminal "api"))])
    by (repeat constructor).
  split; [exact Hs|].
  exact (proj1 (UseAll_appends_in_order
                  [("/", MwHandler (wrapping "in" "out"));
                   ("/api", MwContextFunc (terminal "api"))]
                  (mkVermouth tt tt [])) Hs).
Defined.

(** A supported middleware and an unsupported route value: both orders
    panic on the route. *)
Lemma Use_Handle_commute_witness :
  let vm := mkVermouth tt tt ([] : list (Handler unit unit (list string))) in
  let reg := fun (_ _ : string)
                 (_ : ContextHandlerFunc unit unit (list string))
                 (r : unit) => r in
  (supported_middleware (MwHandler (wrapping "in" "out")) \/
   supported_handler (HtOther "int" : HandlerType unit unit (list string))) /\
  (Use "/" (MwHandler (wrapping "in" "out")) ;;
   Handle reg "GET" "/" (HtOther "int")) vm
  = (Handle reg "GET" "/" (HtOther "int") ;;
     Use "/" (MwHandler (wrapping "in" "out"))) vm.
Proof.
  split; [left; exact I|].
  apply Use_Handle_commute. left. exact I.
Defined.

(** A dispatcher without middleware, whose router logs the context it is
    given: the handler built on root context 1 serves a request arriving
    under root context 2 on context 2. *)
Lemma empty_dispatcher_is_router_witness :
  let vm := mkVermouth 1 tt ([] : list (Handler nat unit (list string))) in
  let serve := fun (_ : unit) (ctx : nat) (_ : unit) (_ : option Request) =>
                 emit (if Nat.eqb ctx 2 then "router on 2" else "router") in
  vm_handlers vm = [] /\
  Vermouth_HandlerFunc serve vm 2 tt tt None [] = Done tt ["router on 2"].
Proof.
  split; [reflexivity|].
  rewrite (proj1 (empty_dispatcher_is_router
                    (fun (_ : unit) (ctx : nat) (_ : unit)
                         (_ : option Request) =>
                       emit (if Nat.eqb ctx 2 then "router on 2"
                             else "router"))
                    (mkVermouth 1 tt []) (fun w => w) eq_refl) 2 tt).
  reflexivity.
Defined.

(** Scopes ["/api"], ["/admin"] and ["/"] against the path ["/api/x"]. *)
Lemma scoped_chain_is_filter_witness :
  let phs := [("/api", wrapping "api-in" "api-out");
              ("/admin", wrapping "admin-in" "admin-out");
              ("/", wrapping "all-in" "all-out")] in
  let u := mkURL "/api/x" in
  let req := mkRequest (Some u) in
  URL req = Some u /\
  Forall (fun ph => scope_matches (fst ph) (Path u) = true ->
                    forwards_request (snd ph)) phs /\
  ServeHTTP (build (map scoped phs ++ [terminal "H"])) tt tt (Some req) []
  = Done tt ["api-in"; "all-in"; "H"; "all-out"; "api-out"].
Proof.
  assert (Hf : Forall (fun ph : string * Handler unit unit (list string) =>
                         scope_matches (fst ph) "/api/x" = true ->
                         forwards_request (snd ph))
                 [("/api", wrapping "api-in" "api-out");
                  ("/admin", wrapping "admin-in" "admin-out");
                  ("/", wrapping "all-in" "all-out")])
    by (repeat constructor; intros _; apply wrapping_forwards_request).
  split; [reflexivity|]. split; [exact Hf|].
  rewrite (@scoped_chain_is_filter _ _ _ _ [terminal "H"]
             (mkRequest (Some (mkURL "/api/x"))) (mkURL "/api/x")
             eq_refl Hf tt tt).
  reflexivity.
Defined.

(** ["/api"] encloses ["/api/v1"]. *)
Lemma nested_scopes_witness :
  isWildcard "/api/v1" = false /\
  HasPrefix (normalizePattern "/api/v1") (normalizePattern "/api") = true /\
  scope_matches "/api/v1" "/api/v1/users" = true /\
  scope_matches "/api" "/api/v1/users" = true.
Proof.
  split; [reflexivity|]. split; [reflexivity|]. split; [reflexivity|].
  apply (@nested_scopes "/api/v1" "/api" "/api/v1/users"); reflexivity.
Defined.


(** [passThrough] between two logging interceptors. *)
Lemma yielding_interceptor_is_neutral_witness :
  (forall ctx w r (next : ContextHandlerFunc unit unit (list string)),
      passThrough ctx w r next = next ctx w r) /\
  ServeHTTP (build ([wrapping "a" "b"] ++ passThrough :: [terminal "t"]))
  = ServeHTTP (build ([wrapping "a" "b"] ++ [terminal "t"])).
Proof.
  split; [reflexivity|].
  apply yielding_interceptor_is_neutral. reflexivity.
Defined.


(** The call stack of the README: two middlewares and a route. *)
Lemma dispatcher_call_stack_witness :
  let vm := mkVermouth tt tt ([] : list (Handler unit unit (list string))) in
  let phs := [("/", wrapping "m1-in" "m1-out");
              ("", wrapping "m2-in" "m2-out")] in
  let bas := [(emit "m1-in", emit "m1-out"); (emit "m2-in", emit "m2-out")] in
  let serve := fun (_ : unit) (_ _ : unit) (_ : option Request) =>
                 emit "handler" in
  vm_handlers vm = [] /\
  Forall (fun ph => isWildcard (fst ph) = true) phs /\
  Forall2 (fun ph ba => calls_next_once tt tt None (snd ph) ba) phs bas /\
  exists vm',
    UseAll (map (fun ph => (fst ph, MwHandler (snd ph))) phs) vm
    = Done tt vm' /\
    Vermouth_HandlerFunc serve vm' tt tt tt None []
    = Done tt ["m1-in"; "m2-in"; "handler"; "m2-out"; "m1-out"] /\
    Vermouth_ServeHTTP serve (fun w => w) vm' tt None []
    = Done tt ["m1-in"; "m2-in"; "handler"; "m2-out"; "m1-out"].
Proof.
  assert (Hw : Forall (fun ph : string * Handler unit unit (list string) =>
                         isWildcard (fst ph) = true)
                 [("/", wrapping "m1-in" "m1-out");
                  ("", wrapping "m2-in" "m2-out")])
    by (repeat constructor).
  assert (Hc : Forall2
                 (fun (ph : string * Handler unit unit (list string)) ba =>
                    calls_next_once tt tt None (snd ph) ba)
                 [("/", wrapping "m1-in" "m1-out");
                  ("", wrapping "m2-in" "m2-out")]
                 [(emit "m1-in", emit "m1-out");
                  (emit "m2-in", emit "m2-out")])
    by (repeat constructor).
  split; [reflexivity|]. split; [exact Hw|]. split; [exact Hc|].
  destruct (dispatcher_call_stack
              (fun (_ : unit) (_ _ : unit) (_ : option Request) =>
                 emit "handler")
              (mkVermouth tt tt []) eq_refl Hw Hc)
    as (vm' & Hrun & Hfunc & Hserve).
  exists vm'. split; [exact Hrun|]. split.
  - rewrite (Hfunc tt). reflexivity.
  - rewrite (Hserve (fun w => w) tt eq_refl eq_refl). reflexivity.
Defined.

(** A plain middleware that calls its [next] twice. *)
Lemma plain_middleware_keeps_context_witness :
  let m := fun (w : unit) (r : option Request)
               (next : unit -> option Request -> M (list string) unit) =>
             next w r ;; next w r in
  exists h : Handler bool unit (list string),
    wrapMiddlewareFunc (MwFunc m) tt = Done h tt /\
    h true tt None (fun ctx _ _ => emit (if ctx then "yes" else "no"))
    = h true tt None (fun _ _ _ => emit "yes").
Proof.
  destruct (plain_middleware_keeps_context
              (Ctx := bool)
              (fun (w : unit) (r : option Request)
                   (next : unit -> option Request -> M (list string) unit) =>
                 next w r ;; next w r))
    as (h & Hw & Hk).
  exists h. split; [apply Hw|].
  apply Hk. reflexivity.
Defined.

(** The server stops while the context is alive: no stop call. *)
Lemma observer_quiet_without_cancel_witness :
  let sched := [EvObserver CaseCtxDone; EvStopChan] in
  ~ In EvCancel sched /\
  stop_calls (observer_run (mkServer 10) sched ObserveContext) = [].
Proof.
  assert (Hn : ~ In EvCancel [EvObserver CaseCtxDone; EvStopChan])
    by (intros [H|[H|[]]]; discriminate H).
  split; [exact Hn|].
  exact (proj1 (observer_quiet_without_cancel (mkServer 10)
                  [EvObserver CaseCtxDone; EvStopChan]) Hn).
Defined.

(** The one-case observer after the server has already stopped. *)
Lemma observeContext_waits_for_cancel_witness :
  let a := [EvStopChan; EvObserver CaseStopChan; EvCancel] in
  In EvCancel a /\ (exists pick, In (EvObserver pick) a) /\
  stop_calls (observeContext_run (mkServer 10) (a ++ []) ObserveContext)
  = [10%Z].
Proof.
  assert (Hc : In EvCancel [EvStopChan; EvObserver CaseStopChan; EvCancel])
    by (right; right; left; reflexivity).
  assert (Ho : exists pick,
             In (EvObserver pick)
                [EvStopChan; EvObserver CaseStopChan; EvCancel])
    by (exists CaseStopChan; right; left; reflexivity).
  split; [exact Hc|]. split; [exact Ho|].
  exact (proj2 (proj1 (observeContext_waits_for_cancel (mkServer 10)
                         [EvStopChan; EvObserver CaseStopChan; EvCancel] [])
                  Hc Ho)).
Defined.

(** Two option sets that differ in the shutdown callback. *)
Lemma NewServer_options_witness :
  let o1 := mkOptions 5 5 0 (None : option unit) (None : option unit)
                      (None : option unit) 30 0 (Some tt) false
                      (None : option unit) in
  let o2 := mkOptions 5 5 0 (None : option unit) (None : option unit)
                      (None : option unit) 30 0 (None : option unit) false
                      (None : option unit) in
  same_but_ShutdownInitiated o1 o2 /\
  NewServer tt (Some o1) = NewServer tt (Some o2).
Proof.
  assert (Hs : same_but_ShutdownInitiated
                 (mkOptions 5 5 0 (None : option unit) (None : option unit)
                            (None : option unit) 30 0 (Some tt) false
                            (None : option unit))
                 (mkOptions 5 5 0 (None : option unit) (None : option unit)
                            (None : option unit) 30 0 (None : option unit)
                            false (None : option unit)))
    by (repeat split).
  split; [exact Hs|].
  exact (proj1 (NewServer_options tt _ _ []) Hs).
Defined.
